(** * ICP registration pipeline: a shallow embedding and its properties

    The development follows the layout of the repository:

    - [Scalar]: the arithmetic the C++ templates are instantiated at
      ([template <typename T>] in [helper_funcs.hpp], [cl_float] and
      [double] in [algorithms.cpp]).  Two interpretations are provided:
      the real numbers (exact arithmetic, in which the algebraic
      properties are stated) and IEEE-754 binary32 (the arithmetic of
      [cl_float], executable, used for the degenerate numeric cases).
    - flat arrays addressed with [uint32_t] index arithmetic, as the
      reference functions of [include/ICP/tests/helper_funcs.hpp] do;
    - the reference functions themselves ([cpuICPMean], [cpuICPS],
      [cpuICPTransformQ], ...);
    - [Reduce::init] / [Reduce::run];
    - the registration step [ICPStep<CR,CW>::run] and the convergence
      controller [ICP<CR,CW>::run] / [check] / [buildRBC]. *)

From Stdlib Require Import String DecimalString.
From Stdlib Require Import List ZArith NArith Lia Bool.
From Stdlib Require Import Reals Lra Psatz RNsatz.
From Stdlib Require Import SpecFloat.
Import ListNotations.

Set Implicit Arguments.

(** ** Scalars *)

(** The operations the sources use on their floating-point types. *)
Class Scalar (T : Type) : Type := {
  s_zero : T;
  s_one : T;
  s_add : T -> T -> T;
  s_sub : T -> T -> T;
  s_mul : T -> T -> T;
  s_div : T -> T -> T;
  s_sqrt : T -> T;                (* std::sqrt *)
  s_ltb : T -> T -> bool;         (* operator< *)
  s_eqb : T -> T -> bool;         (* operator== *)
  s_of_N : N -> T;                (* conversion of an unsigned integer: (T) n *)
  s_ceil : T -> N                 (* std::ceil, converted to an unsigned integer *)
}.

Declare Scope scalar_scope.
Delimit Scope scalar_scope with S.
Notation "a + b" := (s_add a b) : scalar_scope.
Notation "a - b" := (s_sub a b) : scalar_scope.
Notation "a * b" := (s_mul a b) : scalar_scope.
Notation "a / b" := (s_div a b) : scalar_scope.
Notation "a <? b" := (s_ltb a b) : scalar_scope.

(** Exact arithmetic: the real numbers. *)
Definition Rltb (a b : R) : bool := if Rlt_dec a b then true else false.
Definition Reqb (a b : R) : bool := if Req_dec_T a b then true else false.

(** The least integer not below [r]. *)
Definition Rceil (r : R) : Z :=
  if Req_dec_T (IZR (up r) - 1) r then (up r - 1)%Z else up r.

#[export] Instance R_Scalar : Scalar R := {
  s_zero := 0%R;
  s_one := 1%R;
  s_add := Rplus;
  s_sub := Rminus;
  s_mul := Rmult;
  s_div := Rdiv;
  s_sqrt := R_sqrt.sqrt;
  s_ltb := Rltb;
  s_eqb := Reqb;
  s_of_N := fun n => IZR (Z.of_N n);
  s_ceil := fun r => Z.to_N (Rceil r)
}.

(** Machine arithmetic: IEEE-754 binary32 ([cl_float], [float]),
    round to nearest even. *)
Definition f32_prec : Z := 24.
Definition f32_emax : Z := 128.

(** [std::ceil] of a float, as an unsigned integer.  Converting a
    negative value, an infinity or a NaN is undefined behaviour in C++;
    the model yields 0 there. *)
Definition SFceil_N (x : spec_float) : N :=
  match x with
  | S754_finite false m e =>
      match e with
      | Z0 => Npos m
      | Zpos p => (Npos m * 2 ^ Npos p)%N
      | Zneg p => ((Npos m + 2 ^ Npos p - 1) / 2 ^ Npos p)%N
      end
  | _ => 0%N
  end.

#[export] Instance F32_Scalar : Scalar spec_float := {
  s_zero := S754_zero false;
  s_one := SFone f32_prec f32_emax;
  s_add := SFadd f32_prec f32_emax;
  s_sub := SFsub f32_prec f32_emax;
  s_mul := SFmul f32_prec f32_emax;
  s_div := SFdiv f32_prec f32_emax;
  s_sqrt := SFsqrt f32_prec f32_emax;
  s_ltb := SFltb;
  s_eqb := SFeqb;
  s_of_N := fun n => binary_normalize f32_prec f32_emax (Z.of_N n) 0 false;
  s_ceil := SFceil_N
}.

(** ** Flat arrays and [uint32_t] index arithmetic *)

(** Value of a [uint32_t] expression: arithmetic is modulo [2^32]. *)
Definition u32 (n : N) : N := (n mod 4294967296)%N.

(** Index of component [c] of the [i]-th 8-component point:
    [i * 8 + c] evaluated on [uint32_t]. *)
Definition ix8 (i c : N) : N := u32 (u32 (i * 8) + c).

(** Index of component [c] of the [i]-th 4-component element: [i * 4 + c]. *)
Definition ix4 (i c : N) : N := u32 (u32 (i * 4) + c).

Fixpoint upd {A : Type} (a : list A) (i : nat) (v : A) : list A :=
  match a, i with
  | [], _ => []
  | _ :: r, O => v :: r
  | x :: r, S j => x :: upd r j v
  end.

Section Arrays.
Context {T : Type} {ST : Scalar T}.

(** [a[i]]; a read past the end (undefined behaviour in C++) yields zero. *)
Definition rd (a : list T) (i : N) : T := nth (N.to_nat i) a s_zero.

(** [a[i] = v]; a write past the end (undefined behaviour in C++) is dropped. *)
Definition wr (a : list T) (i : N) (v : T) : list T := upd a (N.to_nat i) v.

(** [for (uint32_t i = 0; i < n; ++i) body], for a bound [n] that is
    itself a [uint32_t]. *)
Definition for_u32 {A : Type} (n : N) (body : N -> A -> A) (a : A) : A :=
    fold_left (fun s i => body (N.of_nat i) s) (seq 0 (N.to_nat n)) a.

(** [std::accumulate (a, a + n, init)]. *)
Definition accumulate (a : list T) (n : N) (init : T) : T :=
    fold_left (fun acc x => (acc + x)%S) (firstn (N.to_nat n) a) init.

(** [std::inner_product (a, a + 4, b + off, init)]: four products added
      to [init] from left to right. *)
Definition inner_product4 (a : list T) (aoff : N) (b : list T) (boff : N)
             (init : T) : T :=
    ((((init + rd a aoff * rd b boff)
       + rd a (aoff + 1) * rd b (boff + 1))
      + rd a (aoff + 2) * rd b (boff + 2))
     + rd a (aoff + 3) * rd b (boff + 3))%S.
End Arrays.

(** ** Reference functions of [helper_funcs.hpp] *)

Section HelperFuncs.
Context {T : Type} {ST : Scalar T}.
Local Open Scope scalar_scope.

Local Notation "0" := s_zero : scalar_scope.
Local Notation "1" := s_one : scalar_scope.
Local Notation "2" := (s_of_N 2) : scalar_scope.

(** [cpuICPMean (F, M, mean, n)]. *)
Definition cpuICPMean_body (F M : list T) (n : N) (j : N) (mean : list T)
    : list T :=
    let mean := wr mean 0 (rd mean 0 + rd F (ix8 j 0) / s_of_N n) in
    let mean := wr mean 1 (rd mean 1 + rd F (ix8 j 1) / s_of_N n) in
    let mean := wr mean 2 (rd mean 2 + rd F (ix8 j 2) / s_of_N n) in
    let mean := wr mean 4 (rd mean 4 + rd M (ix8 j 0) / s_of_N n) in
    let mean := wr mean 5 (rd mean 5 + rd M (ix8 j 1) / s_of_N n) in
    let mean := wr mean 6 (rd mean 6 + rd M (ix8 j 2) / s_of_N n) in
    mean.

Definition clear8 (mean : list T) : list T :=
    let mean := wr (wr (wr (wr mean 3 0) 2 0) 1 0) 0 0 in
    wr (wr (wr (wr mean 7 0) 6 0) 5 0) 4 0.

Definition cpuICPMean (F M mean : list T) (n : N) : list T :=
    for_u32 n (cpuICPMean_body F M n) (clear8 mean).

(** [cpuICPMeanWeighted (F, M, MEAN, W, n)].  The source accumulates
    [sum_w] in a [cl_double] and divides in double precision before
    converting to [T]; the model has the one scalar type [T]. *)
Definition cpuICPMeanWeighted_body (F M W : list T) (sum_w : T) (j : N)
             (MEAN : list T) : list T :=
    let w := rd W j / sum_w in
    let MEAN := wr MEAN 0 (rd MEAN 0 + w * rd F (ix8 j 0)) in
    let MEAN := wr MEAN 1 (rd MEAN 1 + w * rd F (ix8 j 1)) in
    let MEAN := wr MEAN 2 (rd MEAN 2 + w * rd F (ix8 j 2)) in
    let MEAN := wr MEAN 4 (rd MEAN 4 + w * rd M (ix8 j 0)) in
    let MEAN := wr MEAN 5 (rd MEAN 5 + w * rd M (ix8 j 1)) in
    let MEAN := wr MEAN 6 (rd MEAN 6 + w * rd M (ix8 j 2)) in
    MEAN.

Definition cpuICPMeanWeighted (F M MEAN W : list T) (n : N) : list T :=
    let sum_w := accumulate W n 0 in
    for_u32 n (cpuICPMeanWeighted_body F M W sum_w) (clear8 MEAN).

(** [for (uint32_t j = 0; j < 11; ++j) S[j] = 0.f]. *)
Definition clear11 (S : list T) : list T :=
    for_u32 11 (fun j S => wr S j 0) S.

(** [cpuICPS (DM, DF, S, m, c)]. *)
Definition cpuICPS_body (DM DF : list T) (c : T) (i : N) (S : list T)
    : list T :=
    let mp0 := c * rd DM (ix4 i 0) in
    let mp1 := c * rd DM (ix4 i 1) in
    let mp2 := c * rd DM (ix4 i 2) in
    let fp0 := c * rd DF (ix4 i 0) in
    let fp1 := c * rd DF (ix4 i 1) in
    let fp2 := c * rd DF (ix4 i 2) in
    let S := wr S 0 (rd S 0 + mp0 * fp0) in
    let S := wr S 1 (rd S 1 + mp0 * fp1) in
    let S := wr S 2 (rd S 2 + mp0 * fp2) in
    let S := wr S 3 (rd S 3 + mp1 * fp0) in
    let S := wr S 4 (rd S 4 + mp1 * fp1) in
    let S := wr S 5 (rd S 5 + mp1 * fp2) in
    let S := wr S 6 (rd S 6 + mp2 * fp0) in
    let S := wr S 7 (rd S 7 + mp2 * fp1) in
    let S := wr S 8 (rd S 8 + mp2 * fp2) in
    let S := wr S 9 (rd S 9 + ((mp0 * mp0 + mp1 * mp1) + mp2 * mp2)) in
    let S := wr S 10 (rd S 10 + ((fp0 * fp0 + fp1 * fp1) + fp2 * fp2)) in
    S.

Definition cpuICPS (DM DF S : list T) (m : N) (c : T) : list T :=
    for_u32 m (cpuICPS_body DM DF c) (clear11 S).

(** [cpuICPSw (M, F, W, S, m, c)]. *)
Definition cpuICPSw_body (M F W : list T) (c : T) (i : N) (S : list T)
    : list T :=
    let mp0 := c * rd M (ix4 i 0) in
    let mp1 := c * rd M (ix4 i 1) in
    let mp2 := c * rd M (ix4 i 2) in
    let fp0 := c * rd F (ix4 i 0) in
    let fp1 := c * rd F (ix4 i 1) in
    let fp2 := c * rd F (ix4 i 2) in
    let w := rd W i in
    let S := wr S 0 (rd S 0 + (w * mp0) * fp0) in
    let S := wr S 1 (rd S 1 + (w * mp0) * fp1) in
    let S := wr S 2 (rd S 2 + (w * mp0) * fp2) in
    let S := wr S 3 (rd S 3 + (w * mp1) * fp0) in
    let S := wr S 4 (rd S 4 + (w * mp1) * fp1) in
    let S := wr S 5 (rd S 5 + (w * mp1) * fp2) in
    let S := wr S 6 (rd S 6 + (w * mp2) * fp0) in
    let S := wr S 7 (rd S 7 + (w * mp2) * fp1) in
    let S := wr S 8 (rd S 8 + (w * mp2) * fp2) in
    let S := wr S 9 (rd S 9 + w * ((mp0 * mp0 + mp1 * mp1) + mp2 * mp2)) in
    let S := wr S 10 (rd S 10 + w * ((fp0 * fp0 + fp1 * fp1) + fp2 * fp2)) in
    S.

Definition cpuICPSw (M F W S : list T) (m : N) (c : T) : list T :=
    for_u32 m (cpuICPSw_body M F W c) (clear11 S).

(** [cross_product (a, b, c)]: writes [c[0..2]]. *)
Definition cross_product (a b c : list T) : list T :=
    let c := wr c 0 (rd a 1 * rd b 2 - rd a 2 * rd b 1) in
    let c := wr c 1 (rd a 2 * rd b 0 - rd a 0 * rd b 2) in
    let c := wr c 2 (rd a 0 * rd b 1 - rd a 1 * rd b 0) in
    c.

(** The tail of both applicators: components 3..7 are copied. *)
Definition copy_tail (M : list T) (i : N) (tM : list T) : list T :=
    let tM := wr tM (ix8 i 3) (rd M (ix8 i 3)) in
    let tM := wr tM (ix8 i 4) (rd M (ix8 i 4)) in
    let tM := wr tM (ix8 i 5) (rd M (ix8 i 5)) in
    let tM := wr tM (ix8 i 6) (rd M (ix8 i 6)) in
    let tM := wr tM (ix8 i 7) (rd M (ix8 i 7)) in
    tM.

(** [cpuICPTransformQ (M, tM, D, m)]: one iteration of the loop.
      Local arrays ([T qcp[3]], ...) start with unspecified contents and
      are completely overwritten before they are read. *)
Definition cpuICPTransformQ_body (M D : list T) (i : N) (tM : list T)
    : list T :=
    let q := [rd D 0; rd D 1; rd D 2; rd D 3] in
    let t := [rd D 4; rd D 5; rd D 6] in
    let s := rd D 7 in
    let p := [rd M (ix8 i 0); rd M (ix8 i 1); rd M (ix8 i 2)] in
    let q2 := [2 * rd q 0; 2 * rd q 1; 2 * rd q 2] in
    let qcp := cross_product q p [0; 0; 0] in
    let qcp := wr qcp 0 (rd qcp 0 + rd q 3 * rd p 0) in
    let qcp := wr qcp 1 (rd qcp 1 + rd q 3 * rd p 1) in
    let qcp := wr qcp 2 (rd qcp 2 + rd q 3 * rd p 2) in
    let q2cqcp := cross_product q2 qcp [0; 0; 0] in
    let tp0 := s * (rd p 0 + rd q2cqcp 0) + rd t 0 in
    let tp1 := s * (rd p 1 + rd q2cqcp 1) + rd t 1 in
    let tp2 := s * (rd p 2 + rd q2cqcp 2) + rd t 2 in
    let tM := wr tM (ix8 i 0) tp0 in
    let tM := wr tM (ix8 i 1) tp1 in
    let tM := wr tM (ix8 i 2) tp2 in
    copy_tail M i tM.

Definition cpuICPTransformQ (M tM D : list T) (m : N) : list T :=
    for_u32 m (cpuICPTransformQ_body M D) tM.

(** [cpuICPTransformM (M, tM, D, m)]: one iteration of the loop. *)
Definition cpuICPTransformM_body (M D : list T) (i : N) (tM : list T)
    : list T :=
    let tM := wr tM (ix8 i 0) (inner_product4 D 0 M (ix8 i 0) 0) in
    let tM := wr tM (ix8 i 1) (inner_product4 D 4 M (ix8 i 0) 0) in
    let tM := wr tM (ix8 i 2) (inner_product4 D 8 M (ix8 i 0) 0) in
    copy_tail M i tM.

Definition cpuICPTransformM (M tM D : list T) (m : N) : list T :=
    for_u32 m (cpuICPTransformM_body M D) tM.
End HelperFuncs.

(** ** Fixed-size linear algebra ([Eigen::Vector3f], [Eigen::Matrix3f],
       [Eigen::Quaternionf]) *)

Record Vec3 (T : Type) : Type := mkVec3 { vx : T; vy : T; vz : T }.

Record Mat3 (T : Type) : Type := mkMat3 {
  m00 : T; m01 : T; m02 : T;
  m10 : T; m11 : T; m12 : T;
  m20 : T; m21 : T; m22 : T
}.

(** Coefficients are stored in the order [x, y, z, w], as [coeffs ()]
    returns them. *)
Record Quat (T : Type) : Type := mkQuat { qx : T; qy : T; qz : T; qw : T }.

Section LinearAlgebra.
Context {T : Type} {ST : Scalar T}.
Local Open Scope scalar_scope.
Local Notation "0" := s_zero : scalar_scope.
Local Notation "1" := s_one : scalar_scope.
Local Notation "2" := (s_of_N 2) : scalar_scope.

(** [Matrix3f::Identity ()]. *)
Definition mat_id : Mat3 T := mkMat3 1 0 0 0 1 0 0 0 1.

(** [Vector3f::setZero ()]. *)
Definition vec_zero : Vec3 T := mkVec3 0 0 0.

(** [A * B]. *)
Definition mat_mul (A B : Mat3 T) : Mat3 T :=
  mkMat3
    ((m00 A * m00 B + m01 A * m10 B) + m02 A * m20 B)
    ((m00 A * m01 B + m01 A * m11 B) + m02 A * m21 B)
    ((m00 A * m02 B + m01 A * m12 B) + m02 A * m22 B)
    ((m10 A * m00 B + m11 A * m10 B) + m12 A * m20 B)
    ((m10 A * m01 B + m11 A * m11 B) + m12 A * m21 B)
    ((m10 A * m02 B + m11 A * m12 B) + m12 A * m22 B)
    ((m20 A * m00 B + m21 A * m10 B) + m22 A * m20 B)
    ((m20 A * m01 B + m21 A * m11 B) + m22 A * m21 B)
    ((m20 A * m02 B + m21 A * m12 B) + m22 A * m22 B).

(** [A.transpose ()]. *)
Definition mat_transpose (A : Mat3 T) : Mat3 T :=
  mkMat3 (m00 A) (m10 A) (m20 A)
         (m01 A) (m11 A) (m21 A)
         (m02 A) (m12 A) (m22 A).

(** [A.determinant ()]. *)
Definition mat_det (A : Mat3 T) : T :=
  (m00 A * (m11 A * m22 A - m12 A * m21 A)
   - m01 A * (m10 A * m22 A - m12 A * m20 A))
  + m02 A * (m10 A * m21 A - m11 A * m20 A).

(** [c * A]. *)
Definition mat_scale (c : T) (A : Mat3 T) : Mat3 T :=
  mkMat3 (c * m00 A) (c * m01 A) (c * m02 A)
         (c * m10 A) (c * m11 A) (c * m12 A)
         (c * m20 A) (c * m21 A) (c * m22 A).

(** [A * v]. *)
Definition mat_vec (A : Mat3 T) (v : Vec3 T) : Vec3 T :=
  mkVec3 ((m00 A * vx v + m01 A * vy v) + m02 A * vz v)
         ((m10 A * vx v + m11 A * vy v) + m12 A * vz v)
         ((m20 A * vx v + m21 A * vy v) + m22 A * vz v).

Definition vec_add (u v : Vec3 T) : Vec3 T :=
  mkVec3 (vx u + vx v) (vy u + vy v) (vz u + vz v).

Definition vec_sub (u v : Vec3 T) : Vec3 T :=
  mkVec3 (vx u - vx v) (vy u - vy v) (vz u - vz v).

(** [v.norm ()]. *)
Definition vec_norm (v : Vec3 T) : T :=
  s_sqrt ((vx v * vx v + vy v * vy v) + vz v * vz v).

(** [q.vec ()]. *)
Definition quat_vec (q : Quat T) : Vec3 T := mkVec3 (qx q) (qy q) (qz q).

(** [Eigen::Map<Eigen::Vector3f> (p + off)]. *)
Definition map_vec3 (p : list T) (off : N) : Vec3 T :=
  mkVec3 (rd p off) (rd p (off + 1)) (rd p (off + 2)).

(** [Eigen::Map<Eigen::Matrix3f, Eigen::Unaligned, Eigen::Stride<1, 3> > (p)]:
    outer (column) stride 1 and inner (row) stride 3, so that entry
    [(i, j)] is [p[3 * i + j]]: the array is read row by row. *)
Definition map_mat3_rowmajor (p : list T) : Mat3 T :=
  mkMat3 (rd p 0) (rd p 1) (rd p 2)
         (rd p 3) (rd p 4) (rd p 5)
         (rd p 6) (rd p 7) (rd p 8).

(** [Eigen::Quaternionf (p)] from a pointer to coefficients [x, y, z, w]. *)
Definition map_quat (p : list T) : Quat T :=
  mkQuat (rd p 0) (rd p 1) (rd p 2) (rd p 3).

(** [q.toRotationMatrix ()] (also [Eigen::Matrix3f (q)]). *)
Definition toRotationMatrix (q : Quat T) : Mat3 T :=
  let tx := 2 * qx q in
  let ty := 2 * qy q in
  let tz := 2 * qz q in
  let twx := tx * qw q in
  let twy := ty * qw q in
  let twz := tz * qw q in
  let txx := tx * qx q in
  let txy := ty * qx q in
  let txz := tz * qx q in
  let tyy := ty * qy q in
  let tyz := tz * qy q in
  let tzz := tz * qz q in
  mkMat3 (1 - (tyy + tzz)) (txy - twz) (txz + twy)
         (txy + twz) (1 - (txx + tzz)) (tyz - twx)
         (txz - twy) (tyz + twx) (1 - (txx + tyy)).

(** The eight floats of the transform buffer: [q.coeffs ()],
    [t.homogeneous ()], then [hPtrIOT[7] = s] over the homogeneous 1. *)
Definition pack_transform (q : Quat T) (t : Vec3 T) (s : T) : list T :=
  let h := [qx q; qy q; qz q; qw q; vx t; vy t; vz t; 1] in
  wr h 7 s.
End LinearAlgebra.

(** ** Methods: state transformers that return or exit the process *)

Inductive Outcome (A : Type) : Type :=
| Ok : A -> Outcome A
| Fatal : string -> Outcome A.   (* std::cerr << "Error[...]: " << msg; exit (EXIT_FAILURE) *)
Arguments Ok {A} _.
Arguments Fatal {A} _.

(** A method of an object of type [S]: it updates the object and either
    returns or exits; on exit the object is left as it was then. *)
Definition Method (S A : Type) : Type := S -> S * Outcome A.

Definition ret {S A : Type} (a : A) : Method S A := fun s => (s, Ok a).

Definition exit_failure {S A : Type} (msg : string) : Method S A :=
  fun s => (s, Fatal msg).

Definition bind {S A B : Type} (c : Method S A) (f : A -> Method S B)
  : Method S B :=
  fun s => match c s with
           | (s', Ok a) => f a s'
           | (s', Fatal msg) => (s', Fatal msg)
           end.

Definition modify {S : Type} (f : S -> S) : Method S unit :=
  fun s => (f s, Ok tt).

Definition when_exit {S : Type} (b : bool) (msg : string) : Method S unit :=
  if b then exit_failure msg else ret tt.

Notation "c1 ;; c2" := (bind c1 (fun _ => c2))
  (at level 61, right associativity).

(** ** [Reduce<C, T>] *)

(** The two kernel objects of the class. *)
Inductive Kernel : Type := recKernel | groupRecKernel.

(** [queue.enqueueNDRangeKernel (kernel, cl::NullRange, global, local, ...)]. *)
Record Launch : Type := mkLaunch {
  l_kernel : Kernel;
  l_global : N * N;
  l_local : N * N
}.

Record Reduce : Type := mkReduce {
  wgMultiple : N;         (* set by the constructor from the device *)
  cols : N;
  rows : N;
  wgXdim : N;
  globalR : N * N;
  globalGR : N * N;
  local : N * N;
  queue : list Launch     (* the kernels enqueued so far, oldest first *)
}.

Definition msg_zero_columns : string := "The array cannot have zero columns".
Definition msg_multiple_of_4 : string :=
  "The number of columns in the array must be a multiple of 4".
Definition msg_max_columns_prefix : string :=
  "The current configuration of MinReduce supports arrays of up to ".
Definition msg_max_columns_suffix : string := " columns".

Section ReduceModel.
Context {F : Type} {SF : Scalar F}.
(** How [operator<<] prints the value of [std::pow (8 * wgMultiple, 2)]. *)
Context (show : N -> string).

(** [std::ceil (cols / (float) (8 * wgMultiple))], stored in a [size_t]. *)
Definition groups_per_row (cols wgMultiple : N) : N :=
  s_ceil (s_of_N cols / s_of_N (8 * wgMultiple))%S.

(** "Round up to a multiple of 4 (data are handled as float4)". *)
Definition round_up4 (wgXdim : N) : N :=
  if negb (wgXdim =? 1)%N && negb (wgXdim mod 4 =? 0)%N
  then (wgXdim + (4 - wgXdim mod 4))%N
  else wgXdim.

(** [std::pow (8 * wgMultiple, 2)]: an integer, exactly representable in
    a [double] for every work-group multiple below [2^23]. *)
Definition max_columns (wgMultiple : N) : N :=
  ((8 * wgMultiple) * (8 * wgMultiple))%N.

(** [Reduce<C, T>::init (_cols, _rows, _staging)].  The members are
    assigned first, then the three checks of the [try] block run in
    order, each exiting with its message; then the workspaces are set.
    Buffer sizes, staging buffers (mapped and unmapped after the checks)
    and kernel arguments belong to the OpenCL runtime and are left out:
    they enqueue no kernel.  The third message is assembled in a
    [std::ostringstream] and thrown as [ss.str ().c_str ()]; the model
    carries the text that was streamed. *)
Definition Reduce_init (_cols _rows : N) : Method Reduce unit :=
  modify (fun r =>
    let wg := round_up4 (groups_per_row _cols (wgMultiple r)) in
    mkReduce (wgMultiple r) _cols _rows wg
             (globalR r) (globalGR r) (local r) (queue r)) ;;
  (fun r => when_exit (wgXdim r =? 0)%N msg_zero_columns r) ;;
  (fun r => when_exit (negb (cols r mod 4 =? 0)%N) msg_multiple_of_4 r) ;;
  (fun r => when_exit (max_columns (wgMultiple r) <? cols r)%N
              (msg_max_columns_prefix ++ show (max_columns (wgMultiple r))
                 ++ msg_max_columns_suffix)%string r) ;;
  modify (fun r =>
    mkReduce (wgMultiple r) (cols r) (rows r) (wgXdim r)
             ((wgXdim r * wgMultiple r)%N, rows r)
             (wgMultiple r, rows r)
             (wgMultiple r, 1%N)
             (queue r)).

Definition enqueue (l : Launch) (r : Reduce) : Reduce :=
  mkReduce (wgMultiple r) (cols r) (rows r) (wgXdim r)
           (globalR r) (globalGR r) (local r) (queue r ++ [l]).

(** [Reduce<C, T>::run (events, event)]. *)
Definition Reduce_run (r : Reduce) : Reduce :=
  if (wgXdim r =? 1)%N
  then enqueue (mkLaunch recKernel (globalR r) (local r)) r
  else enqueue (mkLaunch groupRecKernel (globalGR r) (local r))
         (enqueue (mkLaunch recKernel (globalR r) (local r)) r).
End ReduceModel.

(** ** [ICPStep<CR, CW>]: one registration step *)

Inductive ICPStepConfigT : Type := EIGEN | POWER_METHOD.
Inductive ICPStepConfigW : Type := REGULAR | WEIGHTED.

(** What the host code of [ICPStep] calls but does not define: the device
    side of the pipeline (OpenCL kernels and the RBC index) and the Eigen
    routines. *)
Class Backend (F : Type) : Type := {
  (** Device buffers other than [dBufferIOT], and the RBC data structure. *)
  Dev : Type;
  (** The [init] calls of the member classes ([fReps], [rbcC],
      [transform], [rbcS], [weights], [means], [devs], [matrixS],
      [powMethod]); each may exit on its own configuration errors. *)
  dev_configure : ICPStepConfigT -> ICPStepConfigW -> N -> N -> F -> F ->
                  Method Dev unit;
  (** [fReps.run (); rbcC.run ()]. *)
  dev_buildRBC : Dev -> Dev;
  (** [transform.run (); rbcS.run (config); [weights.run ();] means.run ();
      devs.run (); matrixS.run ()].  The transform stage reads
      [dBufferIOT]. *)
  dev_pipeline : ICPStepConfigW -> bool -> list F -> Dev -> Dev;
  (** [means.read (H_OUT)]: fixed mean in [0..2], moving mean in [4..6]. *)
  dev_mean : Dev -> list F;
  (** [matrixS.read (H_OUT)]: the covariance bundle of 11 floats. *)
  dev_Sij : Dev -> list F;
  (** [powMethod.run ()]: the 8 floats the kernel writes to its output
      buffer [D_OUT_T_K], which is [dBufferIOT]. *)
  dev_powMethod : Dev -> list F;
  (** [Eigen::JacobiSVD<...> svd (S, ComputeThinU | ComputeThinV)]:
      [(svd.matrixU (), svd.matrixV ())]. *)
  JacobiSVD : Mat3 F -> Mat3 F * Mat3 F;
  (** [Eigen::Quaternionf (R)] for a matrix [R]. *)
  Quaternionf_of_Matrix3f : Mat3 F -> Quat F
}.

Module Step.
Section ICPStepModel.
Context {F : Type} {SF : Scalar F} {BE : Backend F}.
Local Open Scope scalar_scope.
Local Notation "0" := s_zero : scalar_scope.
Local Notation "1" := s_one : scalar_scope.

Record ICPStep : Type := mkICPStep {
  dev : Dev;
  dBufferIOT : list F;    (* device buffer of the cumulative transform *)
  hPtrIOT : list F;       (* its staging buffer on the host *)
  Rk : Mat3 F;
  qk : Quat F;
  tk : Vec3 F;
  sk : F;
  R : Mat3 F;
  q : Quat F;
  t : Vec3 F;
  s : F
}.

Definition msg_zero_landmarks : string :=
  "The sets of landmarks cannot have zero points".
Definition msg_zero_representatives : string :=
  "The sets of representatives cannot have zero points".
Definition msg_zero_alpha : string :=
  "The alpha parameter cannot be equal to zero".

(** [cl_float T0[8] = { 0, 0, 0, 1, 0, 0, 0, 1 }]. *)
Definition T0 : list F := [0; 0; 0; 1; 0; 0; 0; 1].

(** "Load initial identity transformation" and the four assignments
    that follow it in [init]. *)
Definition load_identity (st : ICPStep) : ICPStep :=
  let hPtrIOT := T0 in
  let dBufferIOT := hPtrIOT in
  let R := mat_id in
  let q := Quaternionf_of_Matrix3f R in
  let t := vec_zero in
  let s := 1 in
  mkICPStep (dev st) dBufferIOT hPtrIOT (Rk st) (qk st) (tk st) (sk st)
            R q t s.

Definition on_dev (c : Method Dev unit) : Method ICPStep unit :=
  fun st =>
    let '(d, o) := c (dev st) in
    (mkICPStep d (dBufferIOT st) (hPtrIOT st) (Rk st) (qk st) (tk st)
               (sk st) (R st) (q st) (t st) (s st), o).

(** [ICPStep<CR, CW>::init (_m, _nr, _a, _c, _staging)]. *)
Definition ICPStep_init (CR : ICPStepConfigT) (CW : ICPStepConfigW)
           (_m _nr : N) (_a _c : F) : Method ICPStep unit :=
  (fun st => when_exit (_m =? 0)%N msg_zero_landmarks st) ;;
  (fun st => when_exit (_nr =? 0)%N msg_zero_representatives st) ;;
  (fun st => when_exit (s_eqb _a 0) msg_zero_alpha st) ;;
  modify load_identity ;;
  on_dev (dev_configure CR CW _m _nr _a _c).

(** [ICPStep<CR, CW>::buildRBC (events, event)]. *)
Definition ICPStep_buildRBC (st : ICPStep) : ICPStep :=
  mkICPStep (dev_buildRBC (dev st)) (dBufferIOT st) (hPtrIOT st)
            (Rk st) (qk st) (tk st) (sk st) (R st) (q st) (t st) (s st).

(** The incremental transform of the current iteration. *)
Record Incremental : Type := mkIncremental {
  i_Rk : Mat3 F; i_qk : Quat F; i_tk : Vec3 F; i_sk : F
}.

(** Rotation extraction of the [EIGEN] specializations, from
    [mean = means.read (...)] and [Sij = matrixS.read (...)]. *)
Definition extract_eigen (mean Sij : list F) : Incremental :=
  let sk := s_sqrt (rd Sij 9 / rd Sij 10) in
  let mf := map_vec3 mean 0 in
  let mm := map_vec3 mean 4 in
  let S := map_mat3_rowmajor Sij in
  let svd := JacobiSVD S in
  let matrixU := fst svd in
  let matrixV := snd svd in
  let Rk := mat_mul matrixV (mat_transpose matrixU) in
  let Rk :=
    if mat_det Rk <? 0 then
      let B := mkMat3 1 0 0 0 1 0 0 0 (mat_det Rk) in
      mat_mul (mat_mul matrixV B) (mat_transpose matrixU)
    else Rk in
  let qk := Quaternionf_of_Matrix3f Rk in
  let tk := vec_sub mf (mat_vec (mat_scale sk Rk) mm) in
  mkIncremental Rk qk tk sk.

(** Rotation extraction of the [POWER_METHOD] specializations, from
    [Tk = powMethod.read (H_OUT_T_K)]. *)
Definition extract_power (Tk : list F) : Incremental :=
  let qk := map_quat Tk in
  let Rk := toRotationMatrix qk in
  let tk := map_vec3 Tk 4 in
  let sk := rd Tk 7 in
  mkIncremental Rk qk tk sk.

(** The common tail of the four [run] specializations: composition of
    the incremental transform into the cumulative one, and its upload. *)
Definition compose (d : Dev) (inc : Incremental) (st : ICPStep) : ICPStep :=
  let R := mat_mul (i_Rk inc) (R st) in
  let q := Quaternionf_of_Matrix3f R in
  let t := vec_add (mat_vec (mat_scale (i_sk inc) (i_Rk inc)) (t st))
                   (i_tk inc) in
  let s := i_sk inc * s st in
  let hPtrIOT := pack_transform q t s in
  let dBufferIOT := hPtrIOT in      (* queue.enqueueWriteBuffer (dBufferIOT, ...) *)
  mkICPStep d dBufferIOT hPtrIOT
            (i_Rk inc) (i_qk inc) (i_tk inc) (i_sk inc) R q t s.

(** [ICPStep<CR, CW>::run (events, event, config)]. *)
Definition ICPStep_run (CR : ICPStepConfigT) (CW : ICPStepConfigW)
           (config : bool) (st : ICPStep) : ICPStep :=
  let d := dev_pipeline CW config (dBufferIOT st) (dev st) in
  match CR with
  | EIGEN =>
      let mean := dev_mean d in
      let Sij := dev_Sij d in
      compose d (extract_eigen mean Sij) st
  | POWER_METHOD =>
      let Tk := dev_powMethod d in
      compose d (extract_power Tk) st
  end.
End ICPStepModel.
End Step.

(** ** [ICP<CR, CW>]: the convergence controller *)

(** The double-precision side of [check]: [std::atan2] on floats, the
    promotion of a float to [double], and [M_PI]. *)
Class Libm (F D : Type) : Type := {
  atan2f : F -> F -> F;
  to_double : F -> D;
  M_PI : D
}.

Section ICPModel.
Context {F : Type} {SF : Scalar F} {BE : Backend F}.
Context {D : Type} {SD : Scalar D} {LM : Libm F D}.
Local Open Scope scalar_scope.

(** Modelled from the spec: the declaration of the class template
    [ICP<CR, CW>] (its members [k], [max_iterations], [angle_threshold]
    and [translation_threshold]) is missing from [algorithms.hpp]; only
    the member functions are at hand.  The spec gives the iteration
    counter [k], the unsigned integer [max_iterations] and the two
    thresholds; [init] and [getMaxIterations] fix [max_iterations] as an
    [unsigned int] and the thresholds as [double]s.  [k] is taken to be
    an [unsigned int] as well: it is compared with [max_iterations] by
    [==], and its increments wrap around at [2^32]. *)
Record ICP : Type := mkICP {
  base : Step.ICPStep;
  k : N;
  max_iterations : N;
  angle_threshold : D;
  translation_threshold : D
}.

Definition on_base (f : Step.ICPStep -> Step.ICPStep) (st : ICP) : ICP :=
  mkICP (f (base st)) (k st) (max_iterations st) (angle_threshold st)
        (translation_threshold st).

(** [ICP<CR, CW>::init (_m, _nr, _a, _c, _max_iterations,
    _angle_threshold, _translation_threshold, _staging)]. *)
Definition ICP_init (CR : ICPStepConfigT) (CW : ICPStepConfigW)
           (_m _nr : N) (_a _c : F) (_max_iterations : N)
           (_angle_threshold _translation_threshold : D)
  : Method ICP unit :=
  modify (fun st => mkICP (base st) (k st) (u32 _max_iterations)
                          _angle_threshold _translation_threshold) ;;
  (fun st =>
     let '(b, o) := Step.ICPStep_init CR CW _m _nr _a _c (base st) in
     (mkICP b (k st) (max_iterations st) (angle_threshold st)
            (translation_threshold st), o)).

(** [ICP<CR, CW>::buildRBC (events, event)]. *)
Definition ICP_buildRBC (st : ICP) : ICP :=
  let st := on_base Step.ICPStep_buildRBC st in
  mkICP (base st) 0%N (max_iterations st) (angle_threshold st)
        (translation_threshold st).

(** [180.0 / M_PI * 2.0 * std::atan2 (qk.vec ().norm (), qk.w ())]. *)
Definition delta_angle (st : ICP) : D :=
  ((s_of_N 180 / M_PI) * s_of_N 2)
  * to_double (atan2f (vec_norm (quat_vec (Step.qk (base st)))) (qw (Step.qk (base st)))).

(** [tk.norm ()]. *)
Definition delta_translation (st : ICP) : D :=
  to_double (vec_norm (Step.tk (base st))).

(** [ICP<CR, CW>::check ()]: the returned flag and the object after the
    call. *)
Definition check (st : ICP) : bool * ICP :=
  let st := mkICP (base st) (u32 (k st + 1)) (max_iterations st)
                  (angle_threshold st) (translation_threshold st) in
  if (k st =? max_iterations st)%N then (false, st)
  else if (delta_angle st <? angle_threshold st)
          && (delta_translation st <? translation_threshold st)
       then (false, st)
       else (true, st).

(** [while (check ()) ICPStep<CR, CW>::run ();] unrolled at most [fuel]
    times.  The result holds the final object and the number of calls of
    [ICPStep::run] made by the loop; [None] when [fuel] did not suffice. *)
Fixpoint iterate (CR : ICPStepConfigT) (CW : ICPStepConfigW) (fuel : nat)
         (st : ICP) (steps : N) : option (ICP * N) :=
  match fuel with
  | O => None
  | S fuel' =>
      let '(continue, st') := check st in
      if continue
      then iterate CR CW fuel' (on_base (Step.ICPStep_run CR CW false) st')
                   (steps + 1)%N
      else Some (st', steps)
  end.

(** The number of further increments after which [k] equals
    [max_iterations] once more. *)
Definition checks_left (st : ICP) : N :=
  ((max_iterations st + 4294967296 - u32 (k st + 1)) mod 4294967296 + 1)%N.

(** [ICP<CR, CW>::run ()]: one step that also configures the RBC
    search, then the loop.  [queue.finish ()] only waits. *)
Definition ICP_run_steps (CR : ICPStepConfigT) (CW : ICPStepConfigW)
           (st : ICP) : option (ICP * N) :=
  let st := on_base (Step.ICPStep_run CR CW true) st in
  iterate CR CW (N.to_nat (checks_left st)) st 1%N.
End ICPModel.
Arguments ICP {F BE} D.

(** ** Properties of transforms, used in the statements below *)

Section TransformPredicates.
Context {F : Type} {SF : Scalar F}.
Local Open Scope scalar_scope.

(** [A] is orthonormal: [Aᵗ·A = A·Aᵗ = I]. *)
Definition orthonormal (A : Mat3 F) : Prop :=
  mat_mul (mat_transpose A) A = mat_id /\ mat_mul A (mat_transpose A) = mat_id.

(** [A] is a proper rotation: orthonormal with determinant one. *)
Definition proper_rotation (A : Mat3 F) : Prop :=
  orthonormal A /\ mat_det A = s_one.

(** [q] is a unit quaternion. *)
Definition unit_quaternion (q : Quat F) : Prop :=
  ((qx q * qx q + qy q * qy q) + qz q * qz q) + qw q * qw q = s_one.

(** The 4x4 matrix, in row-major order, of the similarity transform
    [p |-> s·R(q)·p + t] in homogeneous coordinates, for the parameters
    [D = (q, t, s)] of the quaternion-form applicator: the matrix that
    is equivalent to [D]. *)
Definition transform_matrix (D : list F) : list F :=
  let Rq := toRotationMatrix (map_quat D) in
  let s := rd D 7 in
  [ s * m00 Rq; s * m01 Rq; s * m02 Rq; rd D 4;
    s * m10 Rq; s * m11 Rq; s * m12 Rq; rd D 5;
    s * m20 Rq; s * m21 Rq; s * m22 Rq; rd D 6;
    s_zero; s_zero; s_zero; s_one ].

(** [sum_{i < m} f i], accumulated from zero in index order. *)
Definition sum_u32 (m : N) (f : N -> F) : F :=
  for_u32 m (fun i acc => acc + f i) s_zero.

(** Matrix to quaternion conversion (Shepperd's method), by which the
    backends of the concrete runs below implement
    [Quaternionf_of_Matrix3f]. *)
Definition quaternion_of_matrix (A : Mat3 F) : Quat F :=
  let half := s_one / s_of_N 2 in
  let tr := (m00 A + m11 A) + m22 A in
  if s_zero <? tr then
    let r := s_sqrt (tr + s_one) in
    let w := half * r in
    let r := half / r in
    mkQuat ((m21 A - m12 A) * r) ((m02 A - m20 A) * r)
           ((m10 A - m01 A) * r) w
  else if (m11 A <? m00 A) && (m22 A <? m00 A) then
    let r := s_sqrt (((m00 A - m11 A) - m22 A) + s_one) in
    let x := half * r in
    let r := half / r in
    mkQuat x ((m10 A + m01 A) * r) ((m20 A + m02 A) * r)
           ((m21 A - m12 A) * r)
  else if m22 A <? m11 A then
    let r := s_sqrt (((m11 A - m22 A) - m00 A) + s_one) in
    let y := half * r in
    let r := half / r in
    mkQuat ((m10 A + m01 A) * r) y ((m21 A + m12 A) * r)
           ((m02 A - m20 A) * r)
  else
    let r := s_sqrt (((m22 A - m00 A) - m11 A) + s_one) in
    let z := half * r in
    let r := half / r in
    mkQuat ((m20 A + m02 A) * r) ((m21 A + m12 A) * r) z
           ((m10 A - m01 A) * r).
End TransformPredicates.

(** The invariant of the cumulative transform. *)
Definition cumulative_invariant {BE : Backend R} (st : Step.ICPStep) : Prop :=
  proper_rotation (Step.R st) /\ (0 < Step.s st)%R.

(** ** Concrete interpretations over the real numbers *)

(** [atan2 (y, x)]. *)
Definition Ratan2 (y x : R) : R :=
  if Rlt_dec 0 x then atan (y / x)
  else if Rlt_dec x 0 then
    (if Rlt_dec y 0 then atan (y / x) - PI else atan (y / x) + PI)
  else if Rlt_dec 0 y then PI / 2
  else if Rlt_dec y 0 then - PI / 2
  else 0.

#[export] Instance R_Libm : Libm R R := {
  atan2f := Ratan2;
  to_double := fun x => x;
  M_PI := PI
}.

(** A device that reads back the same data at every step; its member
    classes accept every configuration. *)
Definition replay_backend (mean Sij Tk : list R) (U V : Mat3 R) : Backend R := {|
  Dev := unit;
  dev_configure := fun _ _ _ _ _ _ => ret tt;
  dev_buildRBC := fun d => d;
  dev_pipeline := fun _ _ _ d => d;
  dev_mean := fun _ => mean;
  dev_Sij := fun _ => Sij;
  dev_powMethod := fun _ => Tk;
  JacobiSVD := fun _ => (U, V);
  Quaternionf_of_Matrix3f := quaternion_of_matrix
|}.

(** The same device over binary32. *)
Definition replay_backend_f32 (mean Sij Tk : list spec_float)
           (U V : Mat3 spec_float) : Backend spec_float := {|
  Dev := unit;
  dev_configure := fun _ _ _ _ _ _ => ret tt;
  dev_buildRBC := fun d => d;
  dev_pipeline := fun _ _ _ d => d;
  dev_mean := fun _ => mean;
  dev_Sij := fun _ => Sij;
  dev_powMethod := fun _ => Tk;
  JacobiSVD := fun _ => (U, V);
  Quaternionf_of_Matrix3f := quaternion_of_matrix
|}.

(** An object before [init]: members hold unspecified values (here
    zeros); the device is the replay device. *)
Definition blank_ICPStep {F : Type} {SF : Scalar F} {BE : Backend F}
           (d : Dev) : Step.ICPStep :=
  let z := s_zero in
  Step.mkICPStep d [] [] (mkMat3 z z z z z z z z z) (mkQuat z z z z)
            (mkVec3 z z z) z (mkMat3 z z z z z z z z z) (mkQuat z z z z)
            (mkVec3 z z z) z.

(** ** Auxiliary notions and concrete data *)

Section Auxiliary.
Context {T : Type} {ST : Scalar T}.

(** Both applicator loop bodies write three computed values and then
    copy the tail. *)
Definition write_point (M : list T) (a b c : T) (i : N) (tM : list T)
  : list T :=
  copy_tail M i (wr (wr (wr tM (ix8 i 0) a) (ix8 i 1) b) (ix8 i 2) c).

(** Decimal rendering of a number in an error message. *)
Definition show_decimal (n : N) : string :=
  NilEmpty.string_of_uint (N.to_uint n).

(** The integers [a, a + 1, ..., a + n - 1] as scalars. *)
Definition ramp (a : N) (n : nat) : list T :=
  map (fun j => s_of_N (a + N.of_nat j)) (seq 0 n).
End Auxiliary.

Section ControllerNotions.
Context {F : Type} {SF : Scalar F} {BE : Backend F}.
Context {D : Type} {SD : Scalar D} {LM : Libm F D}.

(** The threshold test of [check]: the change in angle and the change in
    translation are both below their thresholds. *)
Definition converged (st : ICP D) : bool :=
  (s_ltb (delta_angle st) (angle_threshold st))
  && (s_ltb (delta_translation st) (translation_threshold st)).

(** The object after [k++]. *)
Definition bump (st : ICP D) : ICP D :=
  mkICP (base st) (u32 (k st + 1)) (max_iterations st)
        (angle_threshold st) (translation_threshold st).
End ControllerNotions.

(** A replay device whose power-method kernel reports the identity
    rotation, the translation [(1, 0, 0)] and the scale 1 at every step
    (and whose covariance bundle is that of the identity). *)
Definition shift_backend : Backend R :=
  replay_backend [0; 0; 0; 0; 0; 0; 0; 0]%R
                 [1; 0; 0; 0; 1; 0; 0; 0; 1; 3; 3]%R
                 [0; 0; 0; 1; 1; 0; 0; 1]%R
                 (mkMat3 1 0 0 0 1 0 0 0 1)%R (mkMat3 1 0 0 0 1 0 0 0 1)%R.

(** A controller on that device, with [k = 0] as [buildRBC] leaves it. *)
Definition shift_ICP (max : N) (angle translation : R) : @ICP R shift_backend R :=
  @mkICP R shift_backend R (@blank_ICPStep R R_Scalar shift_backend tt)
         0 max angle translation.

(** The readback of a step is regular: the closed-form path gets
    orthonormal singular vectors and positive sums of squared
    deviations; the power-method path gets a unit quaternion and a
    positive scale. *)
Definition step_regular {BE : Backend R} (CR : ICPStepConfigT) (d : Dev) : Prop :=
  match CR with
  | EIGEN =>
      orthonormal (fst (JacobiSVD (map_mat3_rowmajor (dev_Sij d)))) /\
      orthonormal (snd (JacobiSVD (map_mat3_rowmajor (dev_Sij d)))) /\
      (0 < rd (dev_Sij d) 9)%R /\ (0 < rd (dev_Sij d) 10)%R
  | POWER_METHOD =>
      unit_quaternion (map_quat (dev_powMethod d)) /\
      (0 < rd (dev_powMethod d) 7)%R
  end.

(** A replay device whose moving landmarks all coincide: the
    cross-covariance matrix and the sum of squared moving deviations are
    zero, the sum of squared fixed deviations is one. *)
Definition collapse_backend : Backend R :=
  replay_backend [0; 0; 0; 0; 0; 0; 0; 0]%R
                 [0; 0; 0; 0; 0; 0; 0; 0; 0; 0; 1]%R
                 [0; 0; 0; 1; 0; 0; 0; 1]%R
                 (mkMat3 1 0 0 0 1 0 0 0 1)%R (mkMat3 1 0 0 0 1 0 0 0 1)%R.

(** [|c·A_i|²] for the [i]-th 4-component element of [A], as [cpuICPS]
    accumulates it. *)
Definition sq_norm_at {T : Type} {ST : Scalar T} (c : T) (A : list T) (i : N)
  : T :=
  let a0 := s_mul c (rd A (ix4 i 0)) in
  let a1 := s_mul c (rd A (ix4 i 1)) in
  let a2 := s_mul c (rd A (ix4 i 2)) in
  s_add (s_add (s_mul a0 a0) (s_mul a1 a1)) (s_mul a2 a2).

(** A binary32 replay device whose bundle has a zero denominator:
    [Sij[9] = 1], [Sij[10] = 0]. *)
Definition degenerate_backend_f32 : Backend spec_float :=
  replay_backend_f32
    (repeat (S754_zero false) 8)
    (repeat (S754_zero false) 9 ++ [SFone f32_prec f32_emax; S754_zero false])
    (repeat (S754_zero false) 8)
    (mat_id (T := spec_float)) (mat_id (T := spec_float)).

(** * Properties *)

(** Division and remainder by constants in linear arithmetic goals. *)
Ltac Zify.zify_post_hook ::= Z.to_euclidean_division_equations.

(** ** Arrays and loops *)

Section ArrayFacts.
Context {T : Type} {ST : Scalar T}.

Lemma upd_length (A : Type) (a : list A) (i : nat) (v : A) :
  length (upd a i v) = length a.
Proof.
  revert i; induction a as [|x a IH]; intros [|i]; simpl; auto.
Qed.

Lemma nth_upd_same (A : Type) (a : list A) (i : nat) (v d : A) :
  (i < length a)%nat -> nth i (upd a i v) d = v.
Proof.
  revert i; induction a as [|x a IH]; intros [|i] H; simpl in *;
    try lia; auto.
  apply IH; lia.
Qed.

Lemma nth_upd_other (A : Type) (a : list A) (i j : nat) (v d : A) :
  i <> j -> nth j (upd a i v) d = nth j a d.
Proof.
  revert i j; induction a as [|x a IH]; intros [|i] [|j] H; simpl;
    try congruence; auto.
Qed.

Lemma wr_length (a : list T) (i : N) (v : T) : length (wr a i v) = length a.
Proof. apply upd_length. Qed.

Lemma rd_wr_same (a : list T) (i : N) (v : T) :
  (N.to_nat i < length a)%nat -> rd (wr a i v) i = v.
Proof. intros H. unfold rd, wr. now apply nth_upd_same. Qed.

Lemma rd_wr_other (a : list T) (i j : N) (v : T) :
  i <> j -> rd (wr a i v) j = rd a j.
Proof. intros H. unfold rd, wr. apply nth_upd_other. lia. Qed.

Lemma for_u32_zero (A : Type) (body : N -> A -> A) (a : A) :
  for_u32 0 body a = a.
Proof. reflexivity. Qed.

Lemma for_u32_succ (A : Type) (n : N) (body : N -> A -> A) (a : A) :
  for_u32 (N.succ n) body a = body n (for_u32 n body a).
Proof.
  unfold for_u32. rewrite N2Nat.inj_succ, seq_S, fold_left_app. simpl.
  now rewrite N2Nat.id.
Qed.

(** Two loops whose bodies agree below the bound compute the same. *)
Lemma for_u32_ext (A : Type) (n : N) (f g : N -> A -> A) (a : A) :
  (forall i x, (i < n)%N -> f i x = g i x) ->
  for_u32 n f a = for_u32 n g a.
Proof.
  induction n as [|n IH] using N.peano_ind; intros H.
  - reflexivity.
  - rewrite !for_u32_succ, IH by (intros; apply H; lia).
    apply H; lia.
Qed.

Lemma u32_small (n : N) : (n < 4294967296)%N -> u32 n = n.
Proof. intros H. unfold u32. now apply N.mod_small. Qed.

Lemma ix8_small (i c : N) :
  (i * 8 + c < 4294967296)%N -> ix8 i c = (i * 8 + c)%N.
Proof.
  intros H. unfold ix8. rewrite (u32_small (n := i * 8)) by lia.
  now apply u32_small.
Qed.
End ArrayFacts.

(** ** The transform applicators leave components 3..7 alone *)

Section Frame.
Context {T : Type} {ST : Scalar T}.

Lemma write_point_length M a b c i tM :
  length (write_point M a b c i tM) = length tM.
Proof. unfold write_point, copy_tail. now rewrite !wr_length. Qed.

Lemma write_point_other M a b c i tM j :
  (i * 8 + 8 <= 4294967296)%N ->
  (j < i * 8 \/ i * 8 + 8 <= j)%N ->
  rd (write_point M a b c i tM) j = rd tM j.
Proof.
  intros Hw Hj. unfold write_point, copy_tail.
  rewrite !ix8_small by lia.
  now rewrite !rd_wr_other by lia.
Qed.

Lemma write_point_tail M a b c i tM d :
  (i * 8 + 8 <= 4294967296)%N ->
  (N.to_nat (i * 8 + 8) <= length tM)%nat ->
  (3 <= d < 8)%N ->
  rd (write_point M a b c i tM) (i * 8 + d) = rd M (i * 8 + d).
Proof.
  intros Hw Hl Hd. unfold write_point, copy_tail.
  rewrite !ix8_small by lia.
  assert (d = 3 \/ d = 4 \/ d = 5 \/ d = 6 \/ d = 7)%N as Hc by lia.
  destruct Hc as [->|[->|[->|[->| ->]]]];
    repeat first
      [ rewrite rd_wr_same by (rewrite !wr_length; lia)
      | rewrite rd_wr_other by lia ];
    reflexivity.
Qed.

(** A loop of such bodies: every point below the bound has its tail
    copied, and the length of the output array is kept. *)
Lemma write_points_tail (M : list T) (f g h : N -> list T -> T) (tM : list T)
      (m : N) :
  (m * 8 <= 4294967296)%N ->
  (N.to_nat (m * 8) <= length tM)%nat ->
  let out := for_u32 m (fun i x => write_point M (f i x) (g i x) (h i x) i x)
                     tM in
  length out = length tM /\
  forall i d, (i < m)%N -> (3 <= d < 8)%N ->
              rd out (i * 8 + d) = rd M (i * 8 + d).
Proof.
  induction m as [|m IH] using N.peano_ind; intros Hw Hl; cbn zeta.
  - split; [reflexivity | intros; lia].
  - rewrite for_u32_succ.
    destruct IH as [IHl IHt]; [lia | lia |].
    split.
    + now rewrite write_point_length.
    + intros i d Hi Hd.
      destruct (N.eq_dec i m) as [->|Hne].
      * apply write_point_tail; [lia | rewrite IHl; lia | lia].
      * rewrite write_point_other by lia. apply IHt; lia.
Qed.
End Frame.

(** C9.  Frame property of the transform applicator.  For every scalar
    type, every input array [M], every transform [D] and every output
    array [tM] that has room for [m] points (with [8·m] within the range
    of the 32-bit index arithmetic), both [cpuICPTransformQ] and
    [cpuICPTransformM] leave in components 3 to 7 of each output point
    the corresponding components of the input point: the homogeneous pad
    and the photometric part are copied unchanged. *)
Theorem transform_frame (T : Type) (ST : Scalar T) (M tM D : list T) (m : N) :
  (m * 8 <= 4294967296)%N ->
  (N.to_nat (m * 8) <= length tM)%nat ->
  forall i c, (i < m)%N -> (3 <= c < 8)%N ->
    rd (cpuICPTransformQ M tM D m) (i * 8 + c) = rd M (i * 8 + c) /\
    rd (cpuICPTransformM M tM D m) (i * 8 + c) = rd M (i * 8 + c).
Proof.
  intros Hw Hl i c Hi Hc. split.
  - unfold cpuICPTransformQ.
    unfold cpuICPTransformQ_body.
    match goal with
    | |- rd (for_u32 m (fun i0 tM0 => copy_tail M i0
              (wr (wr (wr tM0 _ (@?a i0)) _ (@?b i0)) _ (@?c i0))) tM) _ = _ =>
        apply (@write_points_tail T ST M (fun i0 _ => a i0) (fun i0 _ => b i0)
                 (fun i0 _ => c i0) tM m Hw Hl)
    end; assumption.
  - unfold cpuICPTransformM, cpuICPTransformM_body.
    match goal with
    | |- rd (for_u32 m (fun i0 tM0 => copy_tail M i0
              (wr (wr (wr tM0 _ (@?a i0)) _ (@?b i0)) _ (@?c i0))) tM) _ = _ =>
        apply (@write_points_tail T ST M (fun i0 _ => a i0) (fun i0 _ => b i0)
                 (fun i0 _ => c i0) tM m Hw Hl)
    end; assumption.
Qed.

(** Two binary32 points, a transform and an output array of 16 floats. *)
Lemma transform_frame_witness :
  (2 * 8 <= 4294967296)%N /\
  (N.to_nat (2 * 8) <= length (repeat (S754_zero false) 16))%nat /\
  rd (cpuICPTransformQ (T := spec_float) (ramp 1 16)
        (repeat (S754_zero false) 16) (ramp 0 8) 2) (1 * 8 + 3)
    = rd (T := spec_float) (ramp 1 16) (1 * 8 + 3) /\
  rd (cpuICPTransformM (T := spec_float) (ramp 1 16)
        (repeat (S754_zero false) 16) (ramp 0 8) 2) (1 * 8 + 3)
    = rd (T := spec_float) (ramp 1 16) (1 * 8 + 3).
Proof.
  split; [lia|]. split; [simpl; lia|].
  apply (@transform_frame spec_float F32_Scalar (ramp 1 16)
           (repeat (S754_zero false) 16) (ramp 0 8) 2);
    [ lia | simpl; lia | lia | lia ].
Defined.

(** ** Unit weights: the weighted paths reproduce the regular ones *)

Section UnitWeights.
Local Open Scope R_scope.

Lemma accumulate_ones (W : list R) (n : nat) (init : R) :
  (forall j, (j < n)%nat -> nth j W 0 = 1) ->
  fold_left Rplus (firstn n W) init = init + INR n.
Proof.
  revert W init; induction n as [|n IH]; intros W init H.
  - simpl. lra.
  - destruct W as [|x W].
    + specialize (H 0%nat ltac:(lia)). simpl in H. lra.
    + rewrite S_INR. cbn [firstn fold_left].
      rewrite IH by (intros j Hj; apply (H (S j)); lia).
      specialize (H 0%nat ltac:(lia)). simpl in H. lra.
Qed.

Lemma accumulate_unit_weights (W : list R) (n : N) :
  (forall j, (j < n)%N -> rd W j = 1) ->
  accumulate W n s_zero = s_of_N n.
Proof.
  intros H. unfold accumulate. cbn [s_add s_of_N s_zero R_Scalar].
  change (fun acc x : R => acc + x) with Rplus.
  rewrite accumulate_ones.
  - rewrite INR_IZR_INZ, N_nat_Z. lra.
  - intros j Hj. specialize (H (N.of_nat j) ltac:(lia)).
    unfold rd in H. now rewrite Nat2N.id in H.
Qed.

Lemma mean_body_unit_weight (Fx Mx W : list R) (n j : N) (X : list R) :
  rd W j = 1 ->
  cpuICPMeanWeighted_body Fx Mx W (s_of_N n) j X = cpuICPMean_body Fx Mx n j X.
Proof.
  intros Hw. unfold cpuICPMeanWeighted_body, cpuICPMean_body. cbn zeta.
  rewrite Hw. cbn [s_add s_mul s_div s_of_N R_Scalar].
  assert (E : forall x, 1 / IZR (Z.of_N n) * x = x / IZR (Z.of_N n))
    by (intros x; unfold Rdiv; ring).
  now rewrite !E.
Qed.

Lemma S_body_unit_weight (DM DF W : list R) (c : R) (i : N) (X : list R) :
  rd W i = 1 ->
  cpuICPSw_body DM DF W c i X = cpuICPS_body DM DF c i X.
Proof.
  intros Hw. unfold cpuICPSw_body, cpuICPS_body. cbn zeta.
  rewrite Hw. cbn [s_add s_mul R_Scalar].
  now rewrite !Rmult_1_l.
Qed.
End UnitWeights.



(** ** Quaternion form and matrix form of the transform *)

Lemma ix8_offset (i c : N) : (c < 8)%N -> (ix8 i 0 + c = ix8 i c)%N.
Proof.
  intros Hc. unfold ix8, u32.
  rewrite N.add_0_r, N.Div0.mod_mod.
  pose proof (N.mod_upper_bound (i * 8) 4294967296 ltac:(lia)).
  pose proof (N.Div0.div_mod (i * 8) 4294967296).
  symmetry; apply N.mod_small. lia.
Qed.

(** Evaluation of reads and writes on arrays of known shape, and of the
    real interpretation of the scalar operations. *)
Ltac list_ops :=
  cbv [rd wr upd nth N.to_nat Pos.to_nat Pos.iter_op Nat.add
       N.add Pos.add Pos.succ Pos.add_carry
       s_zero s_one s_add s_sub s_mul s_div s_of_N R_Scalar Z.of_N
       m00 m01 m02 m10 m11 m12 m20 m21 m22 qx qy qz qw vx vy vz].

Lemma transform_bodies_agree (M D : list R) (i : N) (X : list R) :
  rd M (ix8 i 3) = 1%R ->
  cpuICPTransformQ_body M D i X
  = cpuICPTransformM_body M (transform_matrix D) i X.
Proof.
  intros H.
  unfold cpuICPTransformQ_body, cpuICPTransformM_body, inner_product4,
    cross_product, transform_matrix, toRotationMatrix, map_quat.
  cbn zeta.
  rewrite !(ix8_offset i) by lia. rewrite H.
  generalize (rd M (ix8 i 0)) (rd M (ix8 i 1)) (rd M (ix8 i 2)).
  generalize (rd D 0) (rd D 1) (rd D 2) (rd D 3)
             (rd D 4) (rd D 5) (rd D 6) (rd D 7).
  intros d0 d1 d2 d3 d4 d5 d6 d7 p0 p1 p2.
  f_equal. f_equal; [f_equal; [f_equal|]|]; list_ops; ring.
Qed.




(** ** The reduction primitive *)

Section RealCeiling.
Local Open Scope R_scope.
Lemma Rceil_spec (r : R) : IZR (Rceil r) - 1 < r <= IZR (Rceil r).
Proof.
  unfold Rceil. destruct (archimed r) as [H1 H2].
  destruct (Req_dec_T (IZR (up r) - 1) r) as [E|E].
  - rewrite minus_IZR. lra.
  - lra.
Qed.

Lemma Rceil_unique (r : R) (z : Z) : IZR z - 1 < r <= IZR z -> Rceil r = z.
Proof.
  intros [H1 H2]. destruct (Rceil_spec r) as [H3 H4].
  assert (IZR z - 1 < IZR (Rceil r)) as A by lra.
  assert (IZR (Rceil r) - 1 < IZR z) as B by lra.
  rewrite <- minus_IZR in A, B.
  apply lt_IZR in A, B. lia.
Qed.

Lemma Rceil_quotient (c d : Z) :
  (0 < d)%Z -> Rceil (IZR c / IZR d) = ((c + d - 1) / d)%Z.
Proof.
  intros Hd. apply Rceil_unique.
  set (q := ((c + d - 1) / d)%Z).
  assert (d * q <= c + d - 1 < d * q + d)%Z as [A B].
  { pose proof (Z.div_mod (c + d - 1) d ltac:(lia)).
    pose proof (Z.mod_pos_bound (c + d - 1) d Hd). subst q. lia. }
  assert (0 < IZR d) as Hd' by (apply IZR_lt; lia).
  assert (IZR d * (IZR q - 1) < IZR c) as A'.
  { rewrite <- minus_IZR, <- mult_IZR. apply IZR_lt. lia. }
  assert (IZR c <= IZR d * IZR q) as B'.
  { rewrite <- mult_IZR. apply IZR_le. lia. }
  split.
  - apply Rmult_lt_reg_l with (IZR d); auto.
    replace (IZR d * (IZR c / IZR d)) with (IZR c) by (field; lra). lra.
  - apply Rmult_le_reg_l with (IZR d); auto.
    replace (IZR d * (IZR c / IZR d)) with (IZR c) by (field; lra). lra.
Qed.
End RealCeiling.

Lemma groups_per_row_exact (cols wg : N) :
  (0 < wg)%N ->
  groups_per_row (F := R) cols wg = ((cols + 8 * wg - 1) / (8 * wg))%N.
Proof.
  intros H. unfold groups_per_row. cbn [s_ceil s_div s_of_N R_Scalar].
  rewrite Rceil_quotient by lia.
  apply N2Z.inj. rewrite Z2N.id.
  - rewrite N2Z.inj_div, N2Z.inj_sub, N2Z.inj_add by lia. reflexivity.
  - apply Z.div_pos; lia.
Qed.

Lemma round_up4_zero (w : N) : round_up4 w = 0%N <-> w = 0%N.
Proof.
  split; [|intros ->; reflexivity].
  unfold round_up4.
  pose proof (N.mod_upper_bound w 4 ltac:(lia)).
  destruct (N.eqb_spec w 1), (N.eqb_spec (w mod 4) 0); cbn [negb andb];
    intros; lia.
Qed.

Lemma round_up4_one (w : N) : round_up4 w = 1%N <-> w = 1%N.
Proof.
  split; [|intros ->; reflexivity].
  unfold round_up4.
  pose proof (N.mod_upper_bound w 4 ltac:(lia)).
  pose proof (N.Div0.div_mod w 4).
  destruct (N.eqb_spec w 1), (N.eqb_spec (w mod 4) 0); cbn [negb andb];
    intros; lia.
Qed.

Lemma ceil_div_zero (c d : N) : (0 < d)%N -> ((c + d - 1) / d = 0 <-> c = 0)%N.
Proof.
  intros Hd. split.
  - intros H. apply N.div_small_iff in H; lia.
  - intros ->. apply N.div_small. lia.
Qed.

Lemma ceil_div_one (c d : N) : (0 < d)%N -> ((c + d - 1) / d = 1 <-> 0 < c <= d)%N.
Proof.
  intros Hd.
  pose proof (N.Div0.div_mod (c + d - 1) d) as H.
  pose proof (N.mod_upper_bound (c + d - 1) d ltac:(lia)) as H0.
  revert H H0.
  generalize ((c + d - 1) mod d)%N ((c + d - 1) / d)%N. intros rm qt H H0.
  split; intros H1.
  - subst qt. lia.
  - nia.
Qed.


Lemma Reduce_init_cases (F : Type) (SF : Scalar F) (show : N -> string)
      (r : Reduce) (c rws : N) :
  let wg := wgMultiple r in
  let w := round_up4 (groups_per_row c wg) in
  let r1 := mkReduce wg c rws w (globalR r) (globalGR r) (local r) (queue r) in
  Reduce_init show c rws r =
    if (w =? 0)%N then (r1, Fatal msg_zero_columns)
    else if negb (c mod 4 =? 0)%N then (r1, Fatal msg_multiple_of_4)
    else if (max_columns wg <? c)%N
         then (r1, Fatal (msg_max_columns_prefix ++ show (max_columns wg)
                            ++ msg_max_columns_suffix)%string)
         else (mkReduce wg c rws w ((w * wg)%N, rws) (wg, rws) (wg, 1%N)
                        (queue r), Ok tt).
Proof.
  cbv zeta. unfold Reduce_init, bind, modify, when_exit, exit_failure, ret.
  cbn [wgXdim cols rows wgMultiple queue globalR globalGR local].
  destruct (_ =? 0)%N; [reflexivity|].
  cbn [wgXdim cols rows wgMultiple queue globalR globalGR local].
  destruct (negb _); [reflexivity|].
  cbn [wgXdim cols rows wgMultiple queue globalR globalGR local].
  destruct (_ <? _)%N; reflexivity.
Qed.



(** The same quotient in binary32, for the sizes of the test-suite. *)
Example groups_per_row_f32 :
  groups_per_row (F := spec_float) 16384 64 = 32%N /\
  groups_per_row (F := spec_float) 512 64 = 1%N /\
  groups_per_row (F := spec_float) 4 64 = 1%N /\
  groups_per_row (F := spec_float) 0 64 = 0%N /\
  groups_per_row (F := spec_float) 262144 64 = 512%N.
Proof. vm_compute. repeat split. Qed.

(** ** The convergence controller *)

Section Controller.
Context {F : Type} {SF : Scalar F} {BE : Backend F}.
Context {D : Type} {SD : Scalar D} {LM : Libm F D}.
Variables (CR : ICPStepConfigT) (CW : ICPStepConfigW).

Lemma check_eq (st : ICP D) :
  check st =
  (negb ((k (bump st) =? max_iterations st)%N || converged st), bump st).
Proof.
  unfold check, converged, bump, delta_angle, delta_translation.
  cbn [k max_iterations base angle_threshold translation_threshold].
  destruct (_ =? _)%N; [reflexivity|].
  cbn [orb]. destruct (_ && _); reflexivity.
Qed.

Lemma checks_left_stop (st : ICP D) :
  (max_iterations st < 4294967296)%N ->
  k (bump st) = max_iterations st -> checks_left st = 1%N.
Proof.
  unfold checks_left, bump, u32. cbn [k max_iterations]. intros H E. lia.
Qed.

Lemma checks_left_continue (st : ICP D) (f : Step.ICPStep -> Step.ICPStep) :
  (max_iterations st < 4294967296)%N ->
  k (bump st) <> max_iterations st ->
  (checks_left (on_base f (bump st)) + 1 = checks_left st)%N.
Proof.
  unfold checks_left, on_base, bump, u32. cbn [k max_iterations]. intros H E. lia.
Qed.

Lemma checks_left_pos (st : ICP D) : (1 <= checks_left st)%N.
Proof. unfold checks_left. lia. Qed.

Lemma converged_bump (st : ICP D) : converged (bump st) = converged st.
Proof. reflexivity. Qed.

Lemma converged_on_base (f : Step.ICPStep -> Step.ICPStep) (st : ICP D) :
  max_iterations (on_base f st) = max_iterations st /\
  k (on_base f st) = k st.
Proof. split; reflexivity. Qed.

Lemma iterate_total (fuel : nat) : forall (st : ICP D) (n : N),
  (max_iterations st < 4294967296)%N ->
  (N.to_nat (checks_left st) <= fuel)%nat ->
  exists fin steps,
    iterate CR CW fuel st n = Some (fin, steps) /\
    (n <= steps)%N /\ (steps + 1 <= n + checks_left st)%N /\
    k fin = u32 (k st + (steps - n) + 1) /\
    max_iterations fin = max_iterations st /\
    (k fin = max_iterations fin \/ converged fin = true).
Proof.
  induction fuel as [|fuel IH]; intros st n Hm Hf.
  - unfold checks_left in Hf. lia.
  - pose proof (checks_left_pos st) as Hp.
    cbn [iterate]. rewrite check_eq.
    destruct (N.eqb_spec (k (bump st)) (max_iterations st)) as [E|E].
    + cbn [orb negb]. exists (bump st), n.
      repeat split; try lia; auto.
      cbn [k bump]. f_equal. lia.
    + cbn [orb]. destruct (converged st) eqn:Hc; cbn [negb].
      * exists (bump st), n.
        repeat split; try lia; auto.
        cbn [k bump]. f_equal. lia.
      * pose proof (@checks_left_continue st (Step.ICPStep_run CR CW false) Hm E) as Hl.
        destruct (IH (on_base (Step.ICPStep_run CR CW false) (bump st)) (n + 1)%N)
          as (fin & steps & E1 & E2 & E3 & E4 & E5 & E6).
        { exact Hm. }
        { lia. }
        exists fin, steps. repeat split; try lia; auto.
        rewrite E4. cbn [k on_base bump]. unfold u32. lia.
Qed.

(** When no state is ever judged converged, the loop runs until the cap. *)
Lemma iterate_to_cap (fuel : nat) : forall (st : ICP D) (n : N),
  (forall st' : ICP D,
      angle_threshold st' = angle_threshold st ->
      translation_threshold st' = translation_threshold st ->
      converged st' = false) ->
  (max_iterations st < 4294967296)%N ->
  (N.to_nat (checks_left st) <= fuel)%nat ->
  exists fin,
    iterate CR CW fuel st n = Some (fin, n + checks_left st - 1)%N /\
    k fin = max_iterations st /\
    max_iterations fin = max_iterations st /\
    angle_threshold fin = angle_threshold st /\
    translation_threshold fin = translation_threshold st.
Proof.
  induction fuel as [|fuel IH]; intros st n Hnc Hm Hf.
  - unfold checks_left in Hf. lia.
  - pose proof (checks_left_pos st) as Hp.
    cbn [iterate]. rewrite check_eq, Hnc, orb_false_r by reflexivity.
    destruct (N.eqb_spec (k (bump st)) (max_iterations st)) as [E|E]; cbn [negb].
    + exists (bump st). rewrite (@checks_left_stop st Hm E).
      split; [do 2 f_equal; lia|]. split; [exact E|]. repeat split.
    + pose proof (@checks_left_continue st (Step.ICPStep_run CR CW false) Hm E) as Hl.
      destruct (IH (on_base (Step.ICPStep_run CR CW false) (bump st)) (n + 1)%N)
        as (fin & E1 & E2 & E3 & E4 & E5); auto; [lia|].
      exists fin. split; [rewrite E1; do 2 f_equal; lia|].
      repeat split; auto.
Qed.
End Controller.

Section ControllerTheorems.
Context {F : Type} {SF : Scalar F} {BE : Backend F}.
Context {D : Type} {SD : Scalar D} {LM : Libm F D}.
Variables (CR : ICPStepConfigT) (CW : ICPStepConfigW).

Lemma run_total (st : ICP D) :
  (max_iterations st < 4294967296)%N ->
  exists fin steps,
    ICP_run_steps CR CW st = Some (fin, steps) /\
    (1 <= steps)%N /\
    (steps <= checks_left (on_base (Step.ICPStep_run CR CW true) st))%N /\
    k fin = u32 (k st + steps) /\
    max_iterations fin = max_iterations st /\
    (k fin = max_iterations fin \/ converged fin = true).
Proof.
  intros Hm. unfold ICP_run_steps.
  destruct (@iterate_total F SF BE D SD LM CR CW
              (N.to_nat (checks_left (on_base (Step.ICPStep_run CR CW true) st)))
              (on_base (Step.ICPStep_run CR CW true) st) 1%N Hm (le_n _))
    as (fin & steps & E1 & E2 & E3 & E4 & E5 & E6).
  exists fin, steps. repeat split; auto; try lia.
  rewrite E4. cbn [k on_base]. f_equal. lia.
Qed.


End ControllerTheorems.



(** In exact arithmetic a translation threshold that is not positive is
    never met: [|tk|] is not negative. *)
Lemma never_converged (BE : Backend R) (st : @ICP R BE R) :
  (translation_threshold st <= 0)%R -> converged st = false.
Proof.
  intros H. unfold converged.
  replace (s_ltb (delta_translation st) (translation_threshold st))
    with false; [apply andb_false_r|].
  unfold delta_translation, vec_norm.
  cbn [s_ltb s_sqrt to_double R_Scalar R_Libm]. unfold Rltb.
  destruct (Rlt_dec _ _) as [Hlt|]; [|reflexivity].
  pose proof (sqrt_pos
    (s_add (s_add (s_mul (vx (Step.tk (base st))) (vx (Step.tk (base st))))
                  (s_mul (vy (Step.tk (base st))) (vy (Step.tk (base st)))))
           (s_mul (vz (Step.tk (base st))) (vz (Step.tk (base st)))))).
  lra.
Qed.



(** ** The registration step *)

(** Unfolding of the fixed-size linear algebra over the reals. *)
Ltac mat_ops :=
  cbv [mat_mul mat_transpose mat_det mat_id mat_scale mat_vec vec_add vec_sub
       toRotationMatrix
       m00 m01 m02 m10 m11 m12 m20 m21 m22 qx qy qz qw vx vy vz
       s_zero s_one s_add s_sub s_mul s_div s_of_N R_Scalar Z.of_N].

Ltac mat_eq := mat_ops; f_equal; ring.

Section MatrixFacts.
Local Open Scope R_scope.


Lemma mat_mul_assoc (A B C : Mat3 R) :
  mat_mul (mat_mul A B) C = mat_mul A (mat_mul B C).
Proof. destruct A, B, C. mat_eq. Qed.

Lemma mat_mul_id_l (A : Mat3 R) : mat_mul mat_id A = A.
Proof. destruct A. mat_eq. Qed.

Lemma mat_mul_id_r (A : Mat3 R) : mat_mul A mat_id = A.
Proof. destruct A. mat_eq. Qed.

Lemma mat_transpose_mul (A B : Mat3 R) :
  mat_transpose (mat_mul A B) = mat_mul (mat_transpose B) (mat_transpose A).
Proof. destruct A, B. mat_eq. Qed.

Lemma mat_transpose_involutive (A : Mat3 R) :
  mat_transpose (mat_transpose A) = A.
Proof. destruct A. reflexivity. Qed.

Lemma mat_det_mul (A B : Mat3 R) :
  mat_det (mat_mul A B) = mat_det A * mat_det B.
Proof. destruct A, B. mat_ops. ring. Qed.

Lemma mat_det_transpose (A : Mat3 R) : mat_det (mat_transpose A) = mat_det A.
Proof. destruct A. mat_ops. ring. Qed.

Lemma mat_det_id : mat_det (mat_id (T := R)) = 1.
Proof. mat_ops. ring. Qed.

Lemma orthonormal_id : orthonormal (mat_id (T := R)).
Proof. split; mat_eq. Qed.

Lemma orthonormal_transpose (A : Mat3 R) :
  orthonormal A -> orthonormal (mat_transpose A).
Proof.
  intros [H1 H2]. split; rewrite mat_transpose_involutive; assumption.
Qed.

Lemma orthonormal_mul (A B : Mat3 R) :
  orthonormal A -> orthonormal B -> orthonormal (mat_mul A B).
Proof.
  intros [A1 A2] [B1 B2]. split; rewrite mat_transpose_mul.
  - rewrite mat_mul_assoc, <- (mat_mul_assoc (mat_transpose A)), A1,
      mat_mul_id_l. exact B1.
  - rewrite mat_mul_assoc, <- (mat_mul_assoc B), B2, mat_mul_id_l. exact A2.
Qed.

Lemma orthonormal_det (A : Mat3 R) :
  orthonormal A -> mat_det A = 1 \/ mat_det A = -1.
Proof.
  intros [H1 _].
  assert (mat_det A * mat_det A = 1) as H.
  { rewrite <- (mat_det_transpose A) at 1. rewrite <- mat_det_mul, H1.
    apply mat_det_id. }
  assert ((mat_det A - 1) * (mat_det A + 1) = 0) as H' by nra.
  apply Rmult_integral in H'. destruct H'; [left|right]; lra.
Qed.

Lemma proper_rotation_mul (A B : Mat3 R) :
  proper_rotation A -> proper_rotation B -> proper_rotation (mat_mul A B).
Proof.
  intros [A1 A2] [B1 B2]. split.
  - now apply orthonormal_mul.
  - rewrite mat_det_mul. cbn [s_one R_Scalar] in *. rewrite A2, B2. ring.
Qed.

Lemma unit_quaternion_rotation (q : Quat R) :
  unit_quaternion q -> proper_rotation (toRotationMatrix q).
Proof.
  destruct q as [x y z w]. unfold unit_quaternion, proper_rotation, orthonormal.
  cbn [qx qy qz qw s_add s_mul s_one R_Scalar]. intros H.
  assert (Hw : w * w = 1 - x * x - y * y - z * z) by lra.
  repeat split.
  - mat_ops. f_equal; nsatz.
  - mat_ops. f_equal; nsatz.
  - mat_ops. nsatz.
Qed.

Lemma Rltb_true (a b : R) : Rltb a b = true <-> a < b.
Proof. unfold Rltb. destruct (Rlt_dec a b); split; auto; discriminate. Qed.

Lemma Rltb_false (a b : R) : Rltb a b = false <-> ~ a < b.
Proof. unfold Rltb. destruct (Rlt_dec a b); split; auto; try discriminate; tauto. Qed.

(** The correction by [diag (1, 1, det)] turns a reflection into a
    rotation. *)
Lemma reflection_fix (U V : Mat3 R) :
  orthonormal U -> orthonormal V ->
  mat_det (mat_mul V (mat_transpose U)) < 0 ->
  proper_rotation
    (mat_mul (mat_mul V (mkMat3 1 0 0 0 1 0 0 0
                                (mat_det (mat_mul V (mat_transpose U)))))
             (mat_transpose U)).
Proof.
  intros HU HV Hneg.
  assert (HR : orthonormal (mat_mul V (mat_transpose U)))
    by (apply orthonormal_mul; auto using orthonormal_transpose).
  destruct (orthonormal_det HR) as [E|E]; [lra|].
  rewrite E.
  assert (HB : orthonormal (mkMat3 1 0 0 0 1 0 0 0 (-1))) by (split; mat_eq).
  split.
  - repeat apply orthonormal_mul; auto using orthonormal_transpose.
  - rewrite !mat_det_mul in *. rewrite mat_det_transpose in *.
    replace (mat_det (mkMat3 1 0 0 0 1 0 0 0 (-1))) with (-1)
      by (mat_ops; ring).
    cbn [s_one R_Scalar]. nra.
Qed.

Lemma extract_eigen_rotation (BE : Backend R) (mean Sij : list R) :
  orthonormal (fst (JacobiSVD (map_mat3_rowmajor Sij))) ->
  orthonormal (snd (JacobiSVD (map_mat3_rowmajor Sij))) ->
  proper_rotation (Step.i_Rk (Step.extract_eigen mean Sij)).
Proof.
  intros HU HV. unfold Step.extract_eigen. cbn zeta. cbn [Step.i_Rk].
  set (U := fst _) in *. set (V := snd _) in *.
  cbn [s_ltb s_zero s_one R_Scalar].
  destruct (Rltb (mat_det (mat_mul V (mat_transpose U))) 0) eqn:E.
  - apply Rltb_true in E. now apply reflection_fix.
  - apply Rltb_false in E.
    assert (HR : orthonormal (mat_mul V (mat_transpose U)))
      by (apply orthonormal_mul; auto using orthonormal_transpose).
    split; [exact HR|].
    destruct (orthonormal_det HR) as [E'|E']; [exact E'|lra].
Qed.
End MatrixFacts.

Section Sums.
Context {T : Type} {ST : Scalar T}.

Lemma clear_loop (n : N) (S : list T) :
  (N.to_nat n <= length S)%nat ->
  length (for_u32 n (fun j S => wr S j s_zero) S) = length S /\
  forall j, (j < n)%N -> rd (for_u32 n (fun j S => wr S j s_zero) S) j = s_zero.
Proof.
  induction n as [|n IH] using N.peano_ind; intros H.
  - split; [reflexivity | intros; lia].
  - rewrite for_u32_succ. destruct IH as [IL IZ]; [lia|].
    split; [now rewrite wr_length|].
    intros j Hj. destruct (N.eq_dec j n) as [->|Hne].
    + apply rd_wr_same. lia.
    + rewrite rd_wr_other by lia. apply IZ. lia.
Qed.

Lemma clear11_spec (S : list T) :
  (11 <= length S)%nat ->
  length (clear11 S) = length S /\
  rd (clear11 S) 9 = s_zero /\ rd (clear11 S) 10 = s_zero.
Proof.
  intros H. unfold clear11.
  destruct (clear_loop 11 S) as [L Z]; [simpl; lia|].
  split; [exact L|]. split; apply Z; lia.
Qed.

Lemma cpuICPS_body_spec (DM DF : list T) (c : T) (i : N) (S : list T) :
  (11 <= length S)%nat ->
  let mp0 := s_mul c (rd DM (ix4 i 0)) in
  let mp1 := s_mul c (rd DM (ix4 i 1)) in
  let mp2 := s_mul c (rd DM (ix4 i 2)) in
  let fp0 := s_mul c (rd DF (ix4 i 0)) in
  let fp1 := s_mul c (rd DF (ix4 i 1)) in
  let fp2 := s_mul c (rd DF (ix4 i 2)) in
  length (cpuICPS_body DM DF c i S) = length S /\
  rd (cpuICPS_body DM DF c i S) 9 =
    s_add (rd S 9)
          (s_add (s_add (s_mul mp0 mp0) (s_mul mp1 mp1)) (s_mul mp2 mp2)) /\
  rd (cpuICPS_body DM DF c i S) 10 =
    s_add (rd S 10)
          (s_add (s_add (s_mul fp0 fp0) (s_mul fp1 fp1)) (s_mul fp2 fp2)).
Proof.
  intros H. cbv zeta. unfold cpuICPS_body. cbv zeta.
  repeat split.
  - now rewrite !wr_length.
  - rewrite rd_wr_other by lia.
    rewrite rd_wr_same by (rewrite !wr_length; simpl; lia).
    now rewrite !rd_wr_other by lia.
  - rewrite rd_wr_same by (rewrite !wr_length; simpl; lia).
    now rewrite !rd_wr_other by lia.
Qed.

Lemma cpuICPS_scale_sums (DM DF S : list T) (m : N) (c : T) :
  (11 <= length S)%nat ->
  rd (cpuICPS DM DF S m c) 9 = sum_u32 m (sq_norm_at c DM) /\
  rd (cpuICPS DM DF S m c) 10 = sum_u32 m (sq_norm_at c DF).
Proof.
  intros H. unfold cpuICPS, sum_u32.
  destruct (clear11_spec S H) as (L0 & Z9 & Z10).
  assert (G : length (for_u32 m (cpuICPS_body DM DF c) (clear11 S)) = length S /\
              rd (for_u32 m (cpuICPS_body DM DF c) (clear11 S)) 9
                = for_u32 m (fun i acc => s_add acc (sq_norm_at c DM i)) s_zero /\
              rd (for_u32 m (cpuICPS_body DM DF c) (clear11 S)) 10
                = for_u32 m (fun i acc => s_add acc (sq_norm_at c DF i)) s_zero).
  { induction m as [|m IH] using N.peano_ind.
    - rewrite !for_u32_zero. auto.
    - rewrite !for_u32_succ. destruct IH as (IL & I9 & I10).
      destruct (cpuICPS_body_spec DM DF c m
                  (for_u32 m (cpuICPS_body DM DF c) (clear11 S)))
        as (BL & B9 & B10); [lia|].
      split; [lia|]. split.
      + rewrite B9, I9. reflexivity.
      + rewrite B10, I10. reflexivity. }
  tauto.
Qed.
End Sums.

(** The scaling factor [c] cancels in the ratio of the two sums. *)
Lemma sum_sq_norm_scaled (c : R) (A : list R) (m : N) :
  sum_u32 m (sq_norm_at c A) = (c * c * sum_u32 m (sq_norm_at 1%R A))%R.
Proof.
  unfold sum_u32.
  induction m as [|m IH] using N.peano_ind.
  - rewrite !for_u32_zero. cbn [s_zero R_Scalar]. ring.
  - rewrite (for_u32_succ m (fun i acc => s_add acc (sq_norm_at c A i))).
    rewrite (for_u32_succ m (fun i acc => s_add acc (sq_norm_at 1%R A i))).
    rewrite IH. unfold sq_norm_at.
    cbn [s_add s_mul R_Scalar]. ring.
Qed.

Lemma scale_ratio_unscaled (c a b : R) :
  c <> 0%R -> b <> 0%R -> (c * c * a / (c * c * b) = a / b)%R.
Proof. intros Hc Hb. field. auto. Qed.



Lemma cumulative_invariant_init (BE : Backend R) (st : Step.ICPStep) :
  cumulative_invariant (Step.load_identity st).
Proof.
  unfold Step.load_identity, cumulative_invariant. cbn [Step.R Step.s].
  split; [split; [apply orthonormal_id | apply mat_det_id]|].
  cbn [s_one R_Scalar]. lra.
Qed.

(** C5, as amended.  In exact arithmetic the cumulative transform set up
    by [init] has a proper rotation [R] and a scale [s > 0], and a step
    of either strategy keeps both whenever its readback is regular: for
    the closed-form strategy, orthonormal singular vectors and positive
    sums [Sij[9]], [Sij[10]]; for the power-method strategy, a unit
    quaternion and a positive scale [Tk[7]].  ([R] is the product
    [Rk·R]; the quaternion [q] is derived from it, not conversely.) *)
Theorem cumulative_invariant_preserved
        (BE : Backend R) (CR : ICPStepConfigT) (CW : ICPStepConfigW)
        (config : bool) (st : Step.ICPStep) :
  cumulative_invariant st ->
  step_regular CR (dev_pipeline CW config (Step.dBufferIOT st) (Step.dev st)) ->
  cumulative_invariant (Step.ICPStep_run CR CW config st) /\
  cumulative_invariant (Step.load_identity st).
Proof.
  intros [HR Hs] Hreg. split; [|apply cumulative_invariant_init].
  unfold Step.ICPStep_run, Step.compose, cumulative_invariant.
  destruct CR; cbn [Step.R Step.s]; cbn [step_regular] in Hreg.
  - destruct Hreg as (HU & HV & H9 & H10). split.
    + apply proper_rotation_mul; [|exact HR].
      now apply extract_eigen_rotation.
    + unfold Step.extract_eigen. cbn zeta. cbn [Step.i_sk].
      cbn [s_mul s_sqrt s_div R_Scalar].
      apply Rmult_lt_0_compat; [|exact Hs].
      apply sqrt_lt_R0. now apply Rdiv_lt_0_compat.
  - destruct Hreg as (Hq & H7). split.
    + apply proper_rotation_mul; [|exact HR].
      unfold Step.extract_power. cbn [Step.i_Rk].
      now apply unit_quaternion_rotation.
    + unfold Step.extract_power. cbn [Step.i_sk s_mul R_Scalar].
      apply Rmult_lt_0_compat; assumption.
Qed.

Lemma shift_step_regular :
  @step_regular shift_backend POWER_METHOD
    (@dev_pipeline R shift_backend REGULAR true
       (Step.dBufferIOT
          (@Step.load_identity R R_Scalar shift_backend
             (@blank_ICPStep R R_Scalar shift_backend tt)))
       (Step.dev
          (@Step.load_identity R R_Scalar shift_backend
             (@blank_ICPStep R R_Scalar shift_backend tt)))).
Proof.
  split.
  - unfold unit_quaternion. vm_compute. lra.
  - vm_compute. lra.
Qed.

(** The first power-method step after [init] on the replay device. *)
Lemma cumulative_invariant_preserved_witness :
  cumulative_invariant
    (@Step.load_identity R R_Scalar shift_backend
       (@blank_ICPStep R R_Scalar shift_backend tt)) /\
  cumulative_invariant
    (@Step.ICPStep_run R R_Scalar shift_backend POWER_METHOD REGULAR true
       (@Step.load_identity R R_Scalar shift_backend
          (@blank_ICPStep R R_Scalar shift_backend tt))).
Proof.
  split; [apply cumulative_invariant_init|].
  apply (@cumulative_invariant_preserved shift_backend POWER_METHOD REGULAR
           true
           (@Step.load_identity R R_Scalar shift_backend
              (@blank_ICPStep R R_Scalar shift_backend tt))
           (cumulative_invariant_init _) shift_step_regular).
Defined.

(** C5, as stated, fails when all moving landmarks coincide: the sum of
    their squared deviations [Sij[9]] is 0, so [sk = sqrt (0 / 1) = 0],
    and the closed-form step takes the cumulative scale from 1 to 0. *)
Lemma scale_collapses :
  cumulative_invariant
    (@Step.load_identity R R_Scalar collapse_backend
       (@blank_ICPStep R R_Scalar collapse_backend tt)) /\
  Step.s (@Step.ICPStep_run R R_Scalar collapse_backend EIGEN REGULAR true
            (@Step.load_identity R R_Scalar collapse_backend
               (@blank_ICPStep R R_Scalar collapse_backend tt))) = 0%R /\
  ~ cumulative_invariant
      (@Step.ICPStep_run R R_Scalar collapse_backend EIGEN REGULAR true
         (@Step.load_identity R R_Scalar collapse_backend
            (@blank_ICPStep R R_Scalar collapse_backend tt))).
Proof.
  assert (E : Step.s (@Step.ICPStep_run R R_Scalar collapse_backend EIGEN
                        REGULAR true
                        (@Step.load_identity R R_Scalar collapse_backend
                           (@blank_ICPStep R R_Scalar collapse_backend tt)))
              = 0%R).
  { cbn. unfold Rdiv. rewrite Rmult_0_l, sqrt_0. ring. }
  split; [apply cumulative_invariant_init|]. split; [exact E|].
  intros [_ H]. rewrite E in H. lra.
Qed.

(** ** Composition of the cumulative transform *)

Section Composition.
Context {F : Type} {SF : Scalar F} {BE : Backend F}.

(** C2, as amended.  When [init] returns, the cumulative transform is
    the identity ([q = (0, 0, 0, 1)] given that Eigen maps the identity
    matrix to it, [R = I], [t = 0], [s = 1]) and the transform buffer
    holds [(0, 0, 0, 1, 0, 0, 0, 1)].  Every step, under both rotation
    strategies and both weightings, updates it from the incremental
    transform as [R <- Rk·R], [t <- sk·Rk·t + tk], [s <- sk·s], sets [q]
    to the quaternion of the new [R], and writes [(q, t, s)] to the
    device buffer that the transform stage of the next step reads.
    [buildRBC], which opens each registration, leaves the cumulative
    transform and the buffer as they are: a later registration by the
    same object starts from the transform the previous one reached. *)
Theorem cumulative_transform_composition
        (CR : ICPStepConfigT) (CW : ICPStepConfigW) (m nr : N) (a c : F)
        (config : bool) (st0 st : Step.ICPStep) :
  Quaternionf_of_Matrix3f mat_id = mkQuat s_zero s_zero s_zero s_one ->
  (forall st1, Step.ICPStep_init CR CW m nr a c st0 = (st1, Ok tt) ->
     Step.q st1 = mkQuat s_zero s_zero s_zero s_one /\
     Step.R st1 = mat_id /\ Step.t st1 = vec_zero /\ Step.s st1 = s_one /\
     Step.dBufferIOT st1 =
       [s_zero; s_zero; s_zero; s_one; s_zero; s_zero; s_zero; s_one]) /\
  (let st' := Step.ICPStep_run CR CW config st in
   Step.R st' = mat_mul (Step.Rk st') (Step.R st) /\
   Step.t st' = vec_add (mat_vec (mat_scale (Step.sk st') (Step.Rk st'))
                                 (Step.t st))
                        (Step.tk st') /\
   Step.s st' = s_mul (Step.sk st') (Step.s st) /\
   Step.q st' = Quaternionf_of_Matrix3f (Step.R st') /\
   Step.dBufferIOT st' =
     [qx (Step.q st'); qy (Step.q st'); qz (Step.q st'); qw (Step.q st');
      vx (Step.t st'); vy (Step.t st'); vz (Step.t st'); Step.s st'] /\
   forall config',
     Step.dev (Step.ICPStep_run CR CW config' st')
     = dev_pipeline CW config' (Step.dBufferIOT st') (Step.dev st')) /\
  (let st' := Step.ICPStep_buildRBC st in
   Step.R st' = Step.R st /\ Step.q st' = Step.q st /\
   Step.t st' = Step.t st /\ Step.s st' = Step.s st /\
   Step.dBufferIOT st' = Step.dBufferIOT st).
Proof.
  intros Hq. split; [|split].
  - intros st1. unfold Step.ICPStep_init, bind, when_exit, exit_failure, ret,
      modify, Step.on_dev.
    destruct (m =? 0)%N; [discriminate|].
    destruct (nr =? 0)%N; [discriminate|].
    destruct (s_eqb a s_zero); [discriminate|].
    cbn [Step.dev Step.load_identity].
    destruct (dev_configure CR CW m nr a c (Step.dev st0)) as [d [[]|msg]];
      [|discriminate].
    intros E. injection E as <-.
    cbn [Step.q Step.R Step.t Step.s Step.dBufferIOT].
    rewrite Hq. repeat split.
  - cbv zeta. destruct CR; repeat split.
  - repeat split.
Qed.
End Composition.

Lemma quaternion_of_identity :
  quaternion_of_matrix (mat_id (T := R)) = mkQuat 0%R 0%R 0%R 1%R.
Proof.
  unfold quaternion_of_matrix, mat_id.
  cbn [m00 m01 m02 m10 m11 m12 m20 m21 m22 s_ltb s_zero s_one s_add s_sub
       s_mul s_div s_sqrt s_of_N R_Scalar Z.of_N].
  replace (Rltb 0 (1 + 1 + 1)) with true
    by (symmetry; apply Rltb_true; lra).
  replace (1 + 1 + 1 + 1)%R with (2 * 2)%R by ring.
  rewrite sqrt_square by lra.
  f_equal; field.
Qed.

(** The first power-method step after the identity, on the replay
    device: the cumulative scale becomes [1 · 1]. *)
Lemma cumulative_transform_composition_witness :
  @Quaternionf_of_Matrix3f R shift_backend mat_id = mkQuat 0%R 0%R 0%R 1%R /\
  Step.s (@Step.ICPStep_run R R_Scalar shift_backend POWER_METHOD REGULAR true
            (@Step.load_identity R R_Scalar shift_backend
               (@blank_ICPStep R R_Scalar shift_backend tt)))
  = (Step.sk (@Step.ICPStep_run R R_Scalar shift_backend POWER_METHOD REGULAR
                true
                (@Step.load_identity R R_Scalar shift_backend
                   (@blank_ICPStep R R_Scalar shift_backend tt)))
     * Step.s (@Step.load_identity R R_Scalar shift_backend
                 (@blank_ICPStep R R_Scalar shift_backend tt)))%R.
Proof.
  split; [exact quaternion_of_identity|].
  destruct (@cumulative_transform_composition R R_Scalar shift_backend
              POWER_METHOD REGULAR 16384 256 200%R (1 / 1000000)%R true
              (@blank_ICPStep R R_Scalar shift_backend tt)
              (@Step.load_identity R R_Scalar shift_backend
                 (@blank_ICPStep R R_Scalar shift_backend tt))
              quaternion_of_identity)
    as (_ & (_ & _ & H & _) & _).
  exact H.
Defined.

(** C2, as stated, fails for the second registration of an object: after
    [init] and a first registration ([buildRBC], then [run], here
    limited to one step) that reached the translation [(1, 0, 0)], the
    [buildRBC] that opens the next registration resets [k] but leaves
    the cumulative translation at [(1, 0, 0)] and the buffer with it. *)
Lemma registration_resumes_from_previous_transform :
  exists st1 fin,
    ICP_init POWER_METHOD REGULAR 16384 256 200%R (1 / 1000000)%R 1 0%R 0%R
             (shift_ICP 0 0 0) = (st1, Ok tt) /\
    Step.t (base (ICP_buildRBC st1)) = mkVec3 0%R 0%R 0%R /\
    ICP_run_steps POWER_METHOD REGULAR (ICP_buildRBC st1) = Some (fin, 1%N) /\
    k (ICP_buildRBC fin) = 0%N /\
    Step.t (base (ICP_buildRBC fin)) = mkVec3 1%R 0%R 0%R /\
    Step.dBufferIOT (base (ICP_buildRBC fin))
      = [qx (Step.q (base fin)); qy (Step.q (base fin));
         qz (Step.q (base fin)); qw (Step.q (base fin)); 1; 0; 0; 1]%R.
Proof.
  eexists. eexists.
  split.
  { unfold ICP_init, Step.ICPStep_init, bind, modify, when_exit, ret,
      exit_failure, Step.on_dev.
    cbn [N.eqb base k max_iterations angle_threshold translation_threshold
         shift_ICP s_eqb s_zero R_Scalar].
    replace (Reqb 200 0) with false
      by (unfold Reqb; destruct (Req_dec_T 200 0); [lra|reflexivity]).
    cbn. reflexivity. }
  split; [reflexivity|].
  split.
  { cbn. reflexivity. }
  split; [reflexivity|].
  split.
  - vm_compute. f_equal; lra.
  - vm_compute. repeat f_equal; lra.
Qed.

(** ** Degenerate numeric conditions *)


(** A step on a bundle with a zero denominator, in binary32: the scales
    become infinite and the incremental translation is NaN. *)
Example degenerate_step_f32 :
  Step.sk (@Step.ICPStep_run spec_float F32_Scalar degenerate_backend_f32
             EIGEN REGULAR true
             (@Step.load_identity spec_float F32_Scalar degenerate_backend_f32
                (@blank_ICPStep spec_float F32_Scalar degenerate_backend_f32 tt)))
  = S754_infinity false /\
  Step.s (@Step.ICPStep_run spec_float F32_Scalar degenerate_backend_f32
            EIGEN REGULAR true
            (@Step.load_identity spec_float F32_Scalar degenerate_backend_f32
               (@blank_ICPStep spec_float F32_Scalar degenerate_backend_f32 tt)))
  = S754_infinity false /\
  Step.tk (@Step.ICPStep_run spec_float F32_Scalar degenerate_backend_f32
             EIGEN REGULAR true
             (@Step.load_identity spec_float F32_Scalar degenerate_backend_f32
                (@blank_ICPStep spec_float F32_Scalar degenerate_backend_f32 tt)))
  = mkVec3 S754_nan S754_nan S754_nan.
Proof. vm_compute. repeat split. Qed.

(** ** The same properties evaluated in binary32 *)

(** On two points with small integer coordinates and homogeneous
    component 1, the two applicators agree exactly in binary32 as well. *)
Example transform_forms_agree_f32 :
  cpuICPTransformQ (T := spec_float)
    (map s_of_N [1; 2; 3; 1; 9; 9; 9; 9; 4; 5; 6; 1; 8; 8; 8; 8]%N)
    (repeat s_zero 16) (map s_of_N [0; 0; 0; 1; 5; 0; 0; 2]%N) 2
  = cpuICPTransformM (T := spec_float)
      (map s_of_N [1; 2; 3; 1; 9; 9; 9; 9; 4; 5; 6; 1; 8; 8; 8; 8]%N)
      (repeat s_zero 16)
      (transform_matrix (map s_of_N [0; 0; 0; 1; 5; 0; 0; 2]%N)) 2.
Proof. vm_compute. reflexivity. Qed.

(** With unit weights the weighted bundle is the regular bundle in
    binary32 too: multiplying by 1 is exact. *)
Example weighted_bundle_f32 :
  cpuICPSw (T := spec_float) (ramp 0 8) (ramp 5 8)
           (map s_of_N [1; 1]%N) (repeat s_zero 11) 2 (s_of_N 2)
  = cpuICPS (T := spec_float) (ramp 0 8) (ramp 5 8) (repeat s_zero 11) 2
            (s_of_N 2).
Proof. vm_compute. reflexivity. Qed.
